(** * CollabCode collaboration service: the WebSocket session engine

    A shallow embedding of [services/websocket.ts] (the file that
    [src/index.ts] imports [setupWebSocket] from): the in-memory session
    store, the per-connection event handlers and [applyOperation].

    Conventions of the embedding.
    - A JavaScript string is a [string]; one character stands for one code
      unit, and positions count code units as [String.prototype.slice] does.
    - A JavaScript number that the code uses as an index, a counter or a
      clock reading is an integer [Z].  Fractions, NaN and the loss of
      exactness above 2^53 are outside the model.
    - [activeSessions] and the adapter's rooms are finite maps; a session's
      [participants] is an insertion-ordered association list, because the
      order of a JavaScript [Map] is observable in [Array.from(m.values())].
    - Handlers run one at a time.  Only the join handler awaits; its two
      halves are given separately, and [join_session], which [handle]
      dispatches to, is the handler when nothing else runs in between.
      What is proved of [join_session], [handle] and [run] is proved of
      runs in which no frame overtakes a join handler at its [await].
    - Rooms are those of the socket.io adapter: a connection starts in the
      room named by its own socket id.  The server is set up with
      [connectionStateRecovery], so [socket.emit] is a broadcast to that
      room, and [socket.to(room).emit] leaves out the members of that
      room.
    - [new Date()] and [Date.now()] are a clock reading passed with the
      event. *)

From Stdlib Require Import ZArith String Ascii List Lia Sorted.
From stdpp Require Import base gmap strings list fin_maps sets sorting.

Open Scope Z_scope.

(** ** JavaScript strings *)

Module JsString.

(** Relative index resolution shared by the two arguments of [slice]:
    a negative index counts from the end, and the result is clamped to
    [0, len]. *)
Definition relative_index (len i : Z) : Z :=
  if i <? 0 then Z.max (len + i) 0 else Z.min i len.

(** [s.slice(start, end)]; [end_ = None] is the omitted argument. *)
Definition slice (s : string) (start : Z) (end_ : option Z) : string :=
  let len := Z.of_nat (String.length s) in
  let from := relative_index len start in
  let to := match end_ with
            | None => len
            | Some e => relative_index len e
            end in
  if to <=? from then "" else substring (Z.to_nat from) (Z.to_nat (to - from)) s.

(** [x || ''] on an optional string. *)
Definition or_empty (x : option string) : string :=
  match x with
  | Some v => v
  | None => ""
  end.

(** [x || 0] on an optional number: [undefined] and [0] are the falsy
    values, any other number (negative ones too) is kept. *)
Definition or_zero (x : option Z) : Z :=
  match x with
  | Some v => if v =? 0 then 0 else v
  | None => 0
  end.

(** Truthiness of a string: only the empty string is falsy. *)
Definition truthy (s : string) : bool :=
  match s with
  | EmptyString => false
  | String _ _ => true
  end.

End JsString.

Import JsString.

(** ** Data model *)

Inductive OperationType :=
| Insert
| Delete
| Retain
| OtherType (tag : string).   (* a [type] outside the declared union *)

Record Position := { line : Z; column : Z }.

Record Selection := { sel_start : Position; sel_end : Position }.

(** [interface TextOperation] *)
Record TextOperation := {
  op_type : OperationType;
  position : Z;
  content : option string;
  length_ : option Z;
  op_userId : string;
  timestamp : Z;
  op_sessionId : string
}.

(** ** [applyOperation] *)

Definition applyOperation (text : string) (operation : TextOperation) : string :=
  match op_type operation with
  | Insert =>
      slice text 0 (Some (position operation))
      +:+ or_empty (content operation)
      +:+ slice text (position operation) None
  | Delete =>
      slice text 0 (Some (position operation))
      +:+ slice text (position operation + or_zero (length_ operation)) None
  | Retain => text
  | OtherType _ => text
  end.

(** ** JavaScript [Map] with string keys

    Iteration follows insertion order; [set] on a key that is present
    replaces the value where the key already stands. *)

Module JsMap.

Definition t (V : Type) : Type := list (string * V).

Fixpoint jsmap_get {V} (k : string) (m : t V) : option V :=
  match m with
  | [] => None
  | (k', v) :: m' => if decide (k = k') then Some v else jsmap_get k m'
  end.

Fixpoint jsmap_set {V} (k : string) (v : V) (m : t V) : t V :=
  match m with
  | [] => [(k, v)]
  | (k', v') :: m' =>
      if decide (k = k') then (k', v) :: m' else (k', v') :: jsmap_set k v m'
  end.

Fixpoint jsmap_delete {V} (k : string) (m : t V) : t V :=
  match m with
  | [] => []
  | (k', v') :: m' =>
      if decide (k = k') then jsmap_delete k m' else (k', v') :: jsmap_delete k m'
  end.

Definition jsmap_size {V} (m : t V) : Z := Z.of_nat (length m).

Definition jsmap_values {V} (m : t V) : list V := map snd m.

Definition jsmap_keys {V} (m : t V) : list string := map fst m.

End JsMap.

Import JsMap.

(** ** Connections, participants and sessions *)

(** [interface AuthenticatedSocket]: the fields fixed when the connection
    is set up.  [socket.data.sessionId] and the rooms of the socket change
    over time and live in the [World]. *)
Record Socket := {
  sock_id : string;
  userId : string;
  username : string;
  role : string
}.

(** The identity given to a connection while authentication is switched
    off: [socket.userId = socket.id],
    [socket.username = `User-${socket.id.slice(0, 8)}`]. *)
Definition connection (id : string) : Socket :=
  {| sock_id := id;
     userId := id;
     username := "User-" +:+ slice id 0 (Some 8);
     role := "developer" |}.

(** [interface SessionParticipant] *)
Record SessionParticipant := {
  p_userId : string;
  p_username : string;
  socketId : string;
  joinedAt : Z;
  cursor : option Position;
  selection : option Selection
}.

(** [interface CollaborationSession] *)
Record CollaborationSession := {
  sessionId : string;
  projectId : string;
  participants : JsMap.t SessionParticipant;
  currentContent : string;
  version : Z;
  lastActivity : Z
}.

Definition default_content : string :=
  "// Welcome to CollabCode collaborative session!" +:+ String (ascii_of_nat 10) "".

(** The session object built on the first join. *)
Definition new_session (sid : string) (now : Z) : CollaborationSession :=
  {| sessionId := sid;
     projectId := "temp-project";
     participants := [];
     currentContent := default_content;
     version := 1;
     lastActivity := now |}.

(** The server state the handlers read and write. *)
Record World := {
  activeSessions : gmap string CollaborationSession;
  rooms : gmap string (gset string);      (* adapter: room name -> socket ids *)
  data_sessionId : gmap string string     (* socket id -> socket.data.sessionId *)
}.

(** [const activeSessions = new Map()], and no connection yet: no room,
    no bound connection.  A connection enters with [Connect]. *)
Definition initial_world : World :=
  {| activeSessions := ∅; rooms := ∅; data_sessionId := ∅ |}.

(** ** Messages *)

(** Payload of [cursor-update]. *)
Record CursorData := {
  cd_line : Z;
  cd_column : Z;
  cd_selection : option Selection
}.

(** Payload of [text-operation]:
    [Omit<TextOperation, 'userId' | 'timestamp'>]. *)
Record InboundOperation := {
  in_type : OperationType;
  in_position : Z;
  in_content : option string;
  in_length : option Z;
  in_sessionId : string
}.

(** What happens on a connection: it is established, one of its frames
    arrives, or it is closed. *)
Inductive ClientEvent :=
| JoinSession (sid : string)
| TextOperationEvent (operation : InboundOperation)
| CursorUpdate (data : CursorData)
| LeaveSession
| Disconnect
| Connect.

(** One entry of the [participants] array of [session-joined]. *)
Record ParticipantView := {
  pv_userId : string;
  pv_username : string;
  pv_joinedAt : Z;
  pv_cursor : option Position
}.

Inductive ServerEvent :=
| SessionJoined (sid : string) (text : string) (ver : Z)
                (members : list ParticipantView)
| ParticipantJoined (uid uname : string) (joined : Z)
| OperationApplied (operation : TextOperation)
| OperationAcknowledged (operationId : Z) (newVersion : Z)
| CursorMoved (uid uname : string) (data : CursorData) (stamp : Z)
| ParticipantLeft (uid uname : string)
| ErrorEvent (message : string).

(** The two ways a handler sends: [socket.emit] and
    [socket.to(room).emit]. *)
Inductive Channel := ToSender | ToOthers.

#[global] Instance Channel_eq_dec : EqDecision Channel.
Proof. solve_decision. Defined.

Record Delivery := {
  channel : Channel;
  recipients : gset string;
  event : ServerEvent
}.

Definition room_members (w : World) (room : string) : gset string :=
  default ∅ (rooms w !! room).

(** [socket.emit(...)]: with connection state recovery switched on, a
    broadcast to the room named by the socket's id. *)
Definition socket_emit (w : World) (sock : Socket) (ev : ServerEvent)
    : Delivery :=
  {| channel := ToSender;
     recipients := room_members w (sock_id sock);
     event := ev |}.

(** [socket.to(room).emit(...)]: a broadcast to [room] that leaves out
    the members of the room named by the socket's id. *)
Definition socket_to_emit (w : World) (sock : Socket) (room : string)
    (ev : ServerEvent) : Delivery :=
  {| channel := ToOthers;
     recipients := room_members w room ∖ room_members w (sock_id sock);
     event := ev |}.

(** [socket.join(room)], [socket.leave(room)], and the [leaveAll] that
    socket.io performs before it emits [disconnect].  The room is whatever
    string the caller passes, the name of a socket's own room included. *)
Definition socket_join (w : World) (sock : Socket) (room : string)
    : gmap string (gset string) :=
  <[room := {[ sock_id sock ]} ∪ room_members w room]> (rooms w).

Definition socket_leave (w : World) (sock : Socket) (room : string)
    : gmap string (gset string) :=
  <[room := room_members w room ∖ {[ sock_id sock ]}]> (rooms w).

Definition socket_leave_all (w : World) (sock : Socket) : World :=
  {| activeSessions := activeSessions w;
     rooms := (λ members, members ∖ {[ sock_id sock ]}) <$> rooms w;
     data_sessionId := data_sessionId w |}.

(** The bound session of a connection, when [socket.data.sessionId] is
    truthy. *)
Definition bound_session (w : World) (sock : Socket) : option string :=
  match data_sessionId w !! sock_id sock with
  | Some sid => if truthy sid then Some sid else None
  | None => None
  end.

(** ** The event handlers of [setupWebSocket] *)

Definition with_sessions (w : World)
    (m : gmap string CollaborationSession) : World :=
  {| activeSessions := m; rooms := rooms w; data_sessionId := data_sessionId w |}.

Definition with_participants (s : CollaborationSession)
    (ps : JsMap.t SessionParticipant) : CollaborationSession :=
  {| sessionId := sessionId s;
     projectId := projectId s;
     participants := ps;
     currentContent := currentContent s;
     version := version s;
     lastActivity := lastActivity s |}.

Definition participant_view (p : SessionParticipant) : ParticipantView :=
  {| pv_userId := p_userId p;
     pv_username := p_username p;
     pv_joinedAt := joinedAt p;
     pv_cursor := cursor p |}.

(** The participant entry written by a join. *)
Definition joining_participant (sock : Socket) (now : Z) : SessionParticipant :=
  {| p_userId := userId sock;
     p_username := username sock;
     socketId := sock_id sock;
     joinedAt := now;
     cursor := None;
     selection := None |}.

(** [socket.on('join-session', ...)], up to its [await]: the session is
    looked up or created, the participant entry is written and the socket
    enters the room.  The second component is the session object the rest
    of the handler holds on to. *)
Definition join_session_enter (w : World) (sock : Socket) (sid : string)
    (now : Z) : World * CollaborationSession :=
  let session :=
    match activeSessions w !! sid with
    | Some s => s
    | None => new_session sid now
    end in
  let participant := joining_participant sock now in
  let session' :=
    with_participants session
      (jsmap_set (userId sock) participant (participants session)) in
  ({| activeSessions := <[sid := session']> (activeSessions w);
      rooms := socket_join w sock sid;
      data_sessionId := data_sessionId w |},
   session').

(** The rest of the join handler, after [await ... fetchSockets()]: the
    connection is bound to the session and the two notifications go out.
    [session] is the state of the held session object at that moment. *)
Definition join_session_resume (w : World) (sock : Socket) (sid : string)
    (session : CollaborationSession) (participant : SessionParticipant)
    : World * list Delivery :=
  let w' :=
    {| activeSessions := activeSessions w;
       rooms := rooms w;
       data_sessionId := <[sock_id sock := sid]> (data_sessionId w) |} in
  (w',
   [ socket_emit w' sock
       (SessionJoined sid (currentContent session) (version session)
          (map participant_view (jsmap_values (participants session))));
     socket_to_emit w' sock sid
       (ParticipantJoined (p_userId participant) (p_username participant)
          (joinedAt participant)) ]).

(** The join handler when nothing else runs during its [await]. *)
Definition join_session (w : World) (sock : Socket) (sid : string) (now : Z)
    : World * list Delivery :=
  let '(w1, session) := join_session_enter w sock sid now in
  join_session_resume w1 sock sid session (joining_participant sock now).

(** [{ ...operation, userId: socket.userId, timestamp: Date.now(), sessionId }] *)
Definition complete_operation (operation : InboundOperation) (sock : Socket)
    (now : Z) (sid : string) : TextOperation :=
  {| op_type := in_type operation;
     position := in_position operation;
     content := in_content operation;
     length_ := in_length operation;
     op_userId := userId sock;
     timestamp := now;
     op_sessionId := sid |}.

(** The three assignments to the session in the text-operation handler:
    content, [version++], [lastActivity]. *)
Definition apply_to_session (session : CollaborationSession)
    (completeOperation : TextOperation) (now : Z) : CollaborationSession :=
  {| sessionId := sessionId session;
     projectId := projectId session;
     participants := participants session;
     currentContent := applyOperation (currentContent session) completeOperation;
     version := version session + 1;
     lastActivity := now |}.

(** [socket.on('text-operation', ...)] *)
Definition text_operation (w : World) (sock : Socket)
    (operation : InboundOperation) (now : Z) : World * list Delivery :=
  match bound_session w sock with
  | None => (w, [socket_emit w sock (ErrorEvent "Not in a session")])
  | Some sid =>
      match activeSessions w !! sid with
      | None => (w, [socket_emit w sock (ErrorEvent "Session not found")])
      | Some session =>
          let completeOperation := complete_operation operation sock now sid in
          let session' := apply_to_session session completeOperation now in
          let w' := with_sessions w (<[sid := session']> (activeSessions w)) in
          (w',
           [ socket_to_emit w' sock sid (OperationApplied completeOperation);
             socket_emit w' sock
               (OperationAcknowledged (timestamp completeOperation)
                  (version session')) ])
      end
  end.

(** [socket.on('cursor-update', ...)] *)
Definition cursor_update (w : World) (sock : Socket) (data : CursorData)
    (now : Z) : World * list Delivery :=
  match bound_session w sock with
  | None => (w, [])
  | Some sid =>
      match activeSessions w !! sid with
      | None => (w, [])
      | Some session =>
          let w' :=
            match jsmap_get (userId sock) (participants session) with
            | Some participant =>
                let participant' :=
                  {| p_userId := p_userId participant;
                     p_username := p_username participant;
                     socketId := socketId participant;
                     joinedAt := joinedAt participant;
                     cursor := Some {| line := cd_line data;
                                       column := cd_column data |};
                     selection := cd_selection data |} in
                with_sessions w
                  (<[sid := with_participants session
                              (jsmap_set (userId sock) participant'
                                 (participants session))]>
                     (activeSessions w))
            | None => w
            end in
          (w',
           [ socket_to_emit w' sock sid
               (CursorMoved (userId sock) (username sock) data now) ])
      end
  end.

(** [handleLeaveSession] *)
Definition handleLeaveSession (w : World) (sock : Socket)
    : World * list Delivery :=
  match bound_session w sock with
  | None => (w, [])
  | Some sid =>
      if truthy (userId sock) then
        match activeSessions w !! sid with
        | None => (w, [])
        | Some session =>
            let remaining := jsmap_delete (userId sock) (participants session) in
            let rooms' := socket_leave w sock sid in
            let sessions' :=
              if jsmap_size remaining =? 0
              then delete sid (activeSessions w)
              else <[sid := with_participants session remaining]>
                     (activeSessions w) in
            let w' :=
              {| activeSessions := sessions';
                 rooms := rooms';
                 data_sessionId := delete (sock_id sock) (data_sessionId w) |} in
            (w',
             [ socket_to_emit w' sock sid
                 (ParticipantLeft (userId sock) (username sock)) ])
        end
      else (w, [])
  end.

(** [socket.on('disconnect', ...)]: the socket has already left all its
    rooms when the handler runs. *)
Definition disconnect (w : World) (sock : Socket) : World * list Delivery :=
  handleLeaveSession (socket_leave_all w sock) sock.

(** [io.on('connection', ...)]: socket.io has put the new socket in the
    room named by its id; the handler itself only registers the listeners
    and fixes the identity (see [connection]). *)
Definition on_connection (w : World) (sock : Socket) : World * list Delivery :=
  ({| activeSessions := activeSessions w;
      rooms := socket_join w sock (sock_id sock);
      data_sessionId := data_sessionId w |},
   []).

(** Dispatch of one event of connection [sock], received when the clock
    reads [now]. *)
Definition handle (w : World) (sock : Socket) (ev : ClientEvent) (now : Z)
    : World * list Delivery :=
  match ev with
  | JoinSession sid => join_session w sock sid now
  | TextOperationEvent operation => text_operation w sock operation now
  | CursorUpdate data => cursor_update w sock data now
  | LeaveSession => handleLeaveSession w sock
  | Disconnect => disconnect w sock
  | Connect => on_connection w sock
  end.

(** A frame is an event together with its connection and arrival time. *)
Record Frame := {
  f_sock : Socket;
  f_event : ClientEvent;
  f_now : Z
}.

(** Frames are handled one after the other, in the order received; the
    deliveries are collected in the order emitted. *)
Fixpoint run (w : World) (frames : list Frame) : World * list Delivery :=
  match frames with
  | [] => (w, [])
  | f :: rest =>
      let '(w1, out1) := handle w (f_sock f) (f_event f) (f_now f) in
      let '(w2, out2) := run w1 rest in
      (w2, out1 ++ out2)
  end.

(** ** Small scenarios *)

Module Scenario.

Definition alice : Socket := connection "alice-socket-0001".
Definition bob : Socket := connection "bob-socket-0002".

Definition insert_x : InboundOperation :=
  {| in_type := Insert; in_position := 0; in_content := Some "x";
     in_length := None; in_sessionId := "S1" |}.

(** Alice and Bob connect and join "S1". *)
Definition two_joined : World :=
  fst (run initial_world
         [ {| f_sock := alice; f_event := Connect; f_now := 1 |};
           {| f_sock := bob; f_event := Connect; f_now := 2 |};
           {| f_sock := alice; f_event := JoinSession "S1"; f_now := 10 |};
           {| f_sock := bob; f_event := JoinSession "S1"; f_now := 20 |} ]).

Definition session_S1 : CollaborationSession :=
  default (new_session "S1" 10) (activeSessions two_joined !! "S1").

End Scenario.

(** ** Helpers used in the statements *)

Definition with_position (operation : TextOperation) (p : Z) : TextOperation :=
  {| op_type := op_type operation;
     position := p;
     content := content operation;
     length_ := length_ operation;
     op_userId := op_userId operation;
     timestamp := timestamp operation;
     op_sessionId := op_sessionId operation |}.

Definition text_length (text : string) : Z := Z.of_nat (String.length text).

Definition sample_insert : TextOperation :=
  {| op_type := Insert; position := 9; content := Some "!"; length_ := None;
     op_userId := "u"; timestamp := 0; op_sessionId := "S1" |}.

Definition sample_delete : TextOperation :=
  {| op_type := Delete; position := 2; content := None; length_ := Some 10;
     op_userId := "u"; timestamp := 0; op_sessionId := "S1" |}.

Definition delete_op (p : Z) (len : option Z) : TextOperation :=
  {| op_type := Delete; position := p; content := None; length_ := len;
     op_userId := "u"; timestamp := 0; op_sessionId := "S1" |}.


Definition world_after (w : World) (frames : list Frame) : World :=
  fst (run w frames).

Definition outbox (w : World) (frames : list Frame) : list Delivery :=
  snd (run w frames).

(** A text-operation frame. *)
Record TextFrame := {
  tf_sock : Socket;
  tf_operation : InboundOperation;
  tf_now : Z
}.

Definition as_frame (f : TextFrame) : Frame :=
  {| f_sock := tf_sock f;
     f_event := TextOperationEvent (tf_operation f);
     f_now := tf_now f |}.

(** The operation the handler builds from a frame of a connection bound to
    [sid]. *)
Definition stamped (sid : string) (f : TextFrame) : TextOperation :=
  complete_operation (tf_operation f) (tf_sock f) (tf_now f) sid.

(** Left fold of [applyOperation] over the frames, in list order. *)
Definition fold_operations (sid : string) (text : string)
    (frames : list TextFrame) : string :=
  fold_left (λ t f, applyOperation t (stamped sid f)) frames text.

Definition version_of (w : World) (sid : string) : option Z :=
  version <$> activeSessions w !! sid.

Definition content_of (w : World) (sid : string) : option string :=
  currentContent <$> activeSessions w !! sid.

(** The identifiers carried by the [operation-acknowledged] events of a
    list of deliveries. *)
Definition acknowledged_ids (out : list Delivery) : list Z :=
  omap (λ d, match event d with
             | OperationAcknowledged operationId _ => Some operationId
             | _ => None
             end) out.



(** ** The rate limiter of [middleware/rateLimiter.ts]

    [wsRateLimiter] is a module-level [WebSocketRateLimiter] whose
    [checkLimit(clientId)] answers [true] when [limiter.consume(clientId)]
    resolves and [false] when it rejects.  The state of the underlying
    [RateLimiterMemory] and its [consume] belong to a library; they are
    parameters here. *)

Section AdmissionGate.

Context {L : Type}.
Variable consume : string -> Z -> L -> bool * L.

Definition checkLimit (clientId : string) (now : Z) (l : L) : bool * L :=
  consume clientId now l.

(** The process state: the limiter singleton next to the session engine. *)
Record Gateway := {
  wsRateLimiter : L;
  world : World
}.

(** What the server does with one inbound frame: the handler registered
    with [socket.on] runs; [wsRateLimiter] is imported by the module but
    no handler calls it. *)
Definition on_frame (g : Gateway) (f : Frame) : Gateway * list Delivery :=
  let '(w', out) := handle (world g) (f_sock f) (f_event f) (f_now f) in
  ({| wsRateLimiter := wsRateLimiter g; world := w' |}, out).

End AdmissionGate.

Arguments Gateway : clear implicits.

(** A gate that rejects every frame. *)
Definition reject_all (clientId : string) (now : Z) (l : unit) : bool * unit :=
  (false, l).

Module Interleaved.

(** Alice and Bob are in "S1".  Alice sends join-session for "S1" again
    and leave-session right behind it; the leave handler runs while the
    join handler waits at its [await]. *)
Definition entered : World :=
  fst (join_session_enter Scenario.two_joined Scenario.alice "S1" 30).

Definition left : World :=
  fst (handleLeaveSession entered Scenario.alice).

Definition held_session : CollaborationSession :=
  default (new_session "S1" 30) (activeSessions left !! "S1").

Definition resumed : World :=
  fst (join_session_resume left Scenario.alice "S1" held_session
         (joining_participant Scenario.alice 30)).

Definition move : CursorData :=
  {| cd_line := 7; cd_column := 2; cd_selection := None |}.

End Interleaved.

(** Every resident session has at least one participant. *)
Definition no_empty_session (w : World) : Prop :=
  map_Forall (λ _ s, participants s ≠ []) (activeSessions w).

Definition is_leave (ev : ClientEvent) : bool :=
  match ev with
  | LeaveSession => true
  | Disconnect => true
  | _ => false
  end.

(** ** The participant list of [session-joined] *)


(** The [participants] arrays of the [session-joined] events of a list of
    deliveries. *)
Definition joined_payloads (out : list Delivery) : list (list ParticipantView) :=
  omap (λ d, match event d with
             | SessionJoined _ _ _ members => Some members
             | _ => None
             end) out.





Module Rejoin.

(** Alice joins, Bob joins, Alice joins again. *)
Definition frames : list Frame :=
  [ {| f_sock := Scenario.alice; f_event := JoinSession "S1"; f_now := 10 |};
    {| f_sock := Scenario.bob; f_event := JoinSession "S1"; f_now := 20 |};
    {| f_sock := Scenario.alice; f_event := JoinSession "S1"; f_now := 30 |} ].

End Rejoin.

(** ** Further statement helpers for [applyOperation] *)

Definition is_noop_type (ty : OperationType) : bool :=
  match ty with
  | Retain => true
  | OtherType _ => true
  | _ => false
  end.

Definition text_op (ty : OperationType) (p : Z) (payload : option string)
    (len : option Z) : TextOperation :=
  {| op_type := ty; position := p; content := payload; length_ := len;
     op_userId := "u"; timestamp := 0; op_sessionId := "S1" |}.

(** ** Further statement helpers for the handlers *)

(** The session an event is about: the one named by a join-session, the
    bound one for every other event. *)
Definition target_session (w : World) (sock : Socket) (ev : ClientEvent)
    : option string :=
  match ev with
  | JoinSession sid => Some sid
  | _ => bound_session w sock
  end.

Definition is_text_operation (ev : ClientEvent) : bool :=
  match ev with
  | TextOperationEvent _ => true
  | _ => false
  end.

(** The participant entry as the cursor-update handler leaves it. *)
Definition with_cursor (p : SessionParticipant) (data : CursorData)
    : SessionParticipant :=
  {| p_userId := p_userId p;
     p_username := p_username p;
     socketId := socketId p;
     joinedAt := joinedAt p;
     cursor := Some {| line := cd_line data; column := cd_column data |};
     selection := cd_selection data |}.

Module TwoSessions.

(** Alice is in "S1", Bob in "S2". *)
Definition apart : World :=
  world_after initial_world
    [ {| f_sock := Scenario.alice; f_event := Connect; f_now := 1 |};
      {| f_sock := Scenario.bob; f_event := Connect; f_now := 2 |};
      {| f_sock := Scenario.alice; f_event := JoinSession "S1"; f_now := 10 |};
      {| f_sock := Scenario.bob; f_event := JoinSession "S2"; f_now := 20 |} ].

Definition retain_op : InboundOperation :=
  {| in_type := Retain; in_position := 3; in_content := None;
     in_length := Some 2; in_sessionId := "S1" |}.

End TwoSessions.

(** ** Invariants of the session store *)

(** The participant map of a session is a proper map: no identity twice,
    every entry stored under the identity it names. *)
Definition well_keyed (ps : JsMap.t SessionParticipant) : Prop :=
  NoDup (jsmap_keys ps) /\ Forall (λ kv, p_userId (snd kv) = fst kv) ps.

(** Sessions are stored under their own id, with a version of at least 1
    and a proper participant map. *)
Definition registry_consistent (w : World) : Prop :=
  map_Forall
    (λ sid s, sessionId s = sid /\ 1 <= version s /\ well_keyed (participants s))
    (activeSessions w).

(** Whatever session id a connection carries in [socket.data.sessionId],
    that session is resident and lists the connection's identity. *)
Definition bindings_valid (w : World) : Prop :=
  forall id sid,
    data_sessionId w !! id = Some sid ->
    exists s, activeSessions w !! sid = Some s
      /\ is_Some (jsmap_get id (participants s)).

(** The connection uses its socket id as its identity, as [setupWebSocket]
    sets it up. *)
Definition self_identified (sock : Socket) : Prop :=
  userId sock = sock_id sock.

(** ** Operational inspection: [getSessionStatus], [getActiveSessions] *)

Record StatusParticipant := {
  sp_userId : string;
  sp_username : string;
  sp_joinedAt : Z
}.

Record SessionStatus := {
  st_sessionId : string;
  st_participantCount : Z;
  st_participants : list StatusParticipant;
  st_version : Z;
  st_lastActivity : Z
}.

Definition status_participant (p : SessionParticipant) : StatusParticipant :=
  {| sp_userId := p_userId p;
     sp_username := p_username p;
     sp_joinedAt := joinedAt p |}.

(** [getSessionStatus(sessionId)]; [None] is the [null] it returns for a
    session that is not resident. *)
Definition getSessionStatus (w : World) (sid : string) : option SessionStatus :=
  match activeSessions w !! sid with
  | None => None
  | Some session =>
      Some {| st_sessionId := sessionId session;
              st_participantCount := jsmap_size (participants session);
              st_participants :=
                map status_participant (jsmap_values (participants session));
              st_version := version session;
              st_lastActivity := lastActivity session |}
  end.

Record SessionSummary := {
  ss_sessionId : string;
  ss_participantCount : Z;
  ss_lastActivity : Z
}.

Definition session_summary (session : CollaborationSession) : SessionSummary :=
  {| ss_sessionId := sessionId session;
     ss_participantCount := jsmap_size (participants session);
     ss_lastActivity := lastActivity session |}.

(** [getActiveSessions()]: one summary per resident session.  The array
    of the source follows the insertion order of [activeSessions]; the
    finite map does not record that order, so the list here is the same
    array up to the order of its entries. *)
Definition getActiveSessions (w : World) : list SessionSummary :=
  map (λ kv, session_summary (snd kv)) (map_to_list (activeSessions w)).

(** * HTTP middleware

    The pure parts of [middleware/rateLimiter.ts] and of the
    authentication middleware: how a request is keyed, told to retry,
    stripped of its token and let through. *)

(** [req.user], as the authentication middleware attaches it. *)
Record RequestUser := {
  ru_id : string;
  ru_email : string;
  ru_username : string;
  ru_role : string
}.

(** The fields of an Express request the middleware reads; [None] is
    [undefined]. *)
Record Request := {
  req_user : option RequestUser;
  req_ip : option string;
  req_remoteAddress : option string;        (* req.connection.remoteAddress *)
  req_authorization : option string;        (* req.headers.authorization *)
  req_cookie_token : option string          (* req.cookies && req.cookies.token *)
}.

(** An optional string used as a condition, or on the left of [||]: it
    counts only when it is defined and not empty. *)
Definition truthy_string (x : option string) : option string :=
  match x with
  | Some s => if truthy s then Some s else None
  | None => None
  end.

(** [getClientId] *)
Definition getClientId (req : Request) : string :=
  let userId := ru_id <$> req_user req in
  let ip :=
    match truthy_string (req_ip req) with
    | Some a => a
    | None =>
        match truthy_string (req_remoteAddress req) with
        | Some a => a
        | None => "unknown"
        end
    end in
  match truthy_string userId with
  | Some u => "user:" +:+ u
  | None => "ip:" +:+ ip
  end.

(** [Math.round(rejRes.msBeforeNext / 1000) || 1] in the rejection branch
    of [createRateLimiter], for a whole number of milliseconds:
    [Math.round] takes the nearest integer, halves upwards. *)
Definition retry_after_seconds (msBeforeNext : Z) : Z :=
  let secs := (msBeforeNext + 500) / 1000 in
  if secs =? 0 then 1 else secs.

(** [extractToken]: [Some ""] is an empty string, [None] is [null]. *)
Definition extractToken (req : Request) : option string :=
  match req_authorization req with
  | Some authHeader =>
      if truthy authHeader && String.prefix "Bearer " authHeader
      then Some (slice authHeader 7 None)           (* authHeader.substring(7) *)
      else truthy_string (req_cookie_token req)
  | None => truthy_string (req_cookie_token req)
  end.

(** [new CustomError(message, statusCode)] *)
Record CustomError := {
  err_message : string;
  err_status : Z
}.

(** What a middleware hands to [next]: nothing, or an error. *)
Inductive Next :=
| Continue
| NextError (e : CustomError).

(** [interface JWTPayload] *)
Record JWTPayload := {
  jp_userId : string;
  jp_email : string;
  jp_username : string;
  jp_role : string;
  jp_iat : option Z;
  jp_exp : option Z
}.

(** The row [prisma.user.findUnique] selects. *)
Record UserRow := {
  row_id : string;
  row_email : string;
  row_username : string;
  row_role : string;
  row_isActive : bool
}.

(** The outcomes of [jwt.verify] that [verifyToken] tells apart, and those
    of the database query. *)
Inductive JwtOutcome :=
| JwtVerified (payload : JWTPayload)
| JwtTokenExpired
| JwtInvalid
| JwtOtherFailure.

Inductive QueryOutcome :=
| RowFound (row : UserRow)
| RowMissing
| QueryThrows.

Inductive Checked (A : Type) :=
| Ok (a : A)
| Thrown (e : CustomError).

Arguments Ok {A} a.
Arguments Thrown {A} e.

Definition attach (row : UserRow) : RequestUser :=
  {| ru_id := row_id row;
     ru_email := row_email row;
     ru_username := row_username row;
     ru_role := row_role row |}.

Section Authentication.

(** [process.env.JWT_SECRET], the [jsonwebtoken] library and the database
    are given. *)
Variable JWT_SECRET : option string.
Variable jwt_verify : string -> string -> JwtOutcome.
Variable findUnique : string -> QueryOutcome.

(** [verifyToken] *)
Definition verifyToken (token : string) : Checked JWTPayload :=
  match truthy_string JWT_SECRET with
  | None =>
      Thrown {| err_message := "JWT secret not configured"; err_status := 500 |}
  | Some secret =>
      match jwt_verify token secret with
      | JwtVerified payload => Ok payload
      | JwtTokenExpired =>
          Thrown {| err_message := "Token expired"; err_status := 401 |}
      | JwtInvalid =>
          Thrown {| err_message := "Invalid token"; err_status := 401 |}
      | JwtOtherFailure =>
          Thrown {| err_message := "Token verification failed";
                    err_status := 401 |}
      end
  end.

(** [authMiddleware]: the user it attaches, or the error it passes on. *)
Definition authMiddleware (req : Request) : Checked RequestUser :=
  match truthy_string (extractToken req) with
  | None =>
      Thrown {| err_message := "Access token required"; err_status := 401 |}
  | Some token =>
      match verifyToken token with
      | Thrown e => Thrown e
      | Ok decoded =>
          match findUnique (jp_userId decoded) with
          | QueryThrows =>
              Thrown {| err_message := "Authentication failed";
                        err_status := 401 |}
          | RowMissing =>
              Thrown {| err_message := "User not found"; err_status := 401 |}
          | RowFound user =>
              if row_isActive user
              then Ok (attach user)
              else Thrown {| err_message := "User account is disabled";
                             err_status := 401 |}
          end
      end
  end.

(** [optionalAuthMiddleware]: always continues; the result is the user it
    attaches, if any. *)
Definition optionalAuthMiddleware (req : Request) : option RequestUser :=
  match truthy_string (extractToken req) with
  | None => None
  | Some token =>
      match verifyToken token with
      | Thrown _ => None
      | Ok decoded =>
          match findUnique (jp_userId decoded) with
          | RowFound user => if row_isActive user then Some (attach user) else None
          | _ => None
          end
      end
  end.

(** [authenticateSocket] *)
Definition authenticateSocket (token : string) : option JWTPayload :=
  match verifyToken token with
  | Thrown _ => None
  | Ok decoded =>
      match findUnique (jp_userId decoded) with
      | RowFound user =>
          if row_isActive user
          then Some {| jp_userId := row_id user;
                       jp_email := row_email user;
                       jp_username := row_username user;
                       jp_role := row_role user;
                       jp_iat := None;
                       jp_exp := None |}
          else None
      | _ => None
      end
  end.

End Authentication.

(** [requireRole(...roles)] *)
Definition requireRole (roles : list string) (req : Request) : Next :=
  match req_user req with
  | None =>
      NextError {| err_message := "Authentication required"; err_status := 401 |}
  | Some user =>
      if bool_decide (ru_role user ∈ roles)
      then Continue
      else NextError {| err_message := "Insufficient permissions";
                        err_status := 403 |}
  end.

(** [requireOwnershipOrAdmin(getUserId)], for a [getUserId] that returns. *)
Definition requireOwnershipOrAdmin (getUserId : Request -> string)
    (req : Request) : Next :=
  match req_user req with
  | None =>
      NextError {| err_message := "Authentication required"; err_status := 401 |}
  | Some user =>
      let resourceUserId := getUserId req in
      let isOwner := bool_decide (ru_id user = resourceUserId) in
      let isAdmin := bool_decide (ru_role user = "ADMIN") in
      if negb isOwner && negb isAdmin
      then NextError {| err_message := "Access denied"; err_status := 403 |}
      else Continue
  end.

(** The [reconnectStrategy] given to the Redis client: [None] is the
    [false] that stops reconnecting, [Some d] a delay in milliseconds. *)
Definition reconnectStrategy (retries : Z) : option Z :=
  if 20 <? retries then None else Some (Z.min (retries * 50) 1000).

Definition bearer_request (token : string) (cookie : option string) : Request :=
  {| req_user := None; req_ip := None; req_remoteAddress := None;
     req_authorization := Some ("Bearer " +:+ token);
     req_cookie_token := cookie |}.

Definition user_request (id role : string) (ip : option string) : Request :=
  {| req_user := Some {| ru_id := id; ru_email := "e"; ru_username := "n";
                         ru_role := role |};
     req_ip := ip; req_remoteAddress := None;
     req_authorization := None; req_cookie_token := None |}.

(** The identity [authenticateSocket] reports for an attached user. *)
Definition socket_identity (u : RequestUser) : JWTPayload :=
  {| jp_userId := ru_id u;
     jp_email := ru_email u;
     jp_username := ru_username u;
     jp_role := ru_role u;
     jp_iat := None;
     jp_exp := None |}.

Module AuthSample.

Definition ann_row : UserRow :=
  {| row_id := "u1"; row_email := "ann@example.org"; row_username := "ann";
     row_role := "ADMIN"; row_isActive := true |}.

(** A token whose claims say DEVELOPER while the database says ADMIN. *)
Definition claims : JWTPayload :=
  {| jp_userId := "u1"; jp_email := "old@example.org"; jp_username := "ann";
     jp_role := "DEVELOPER"; jp_iat := Some 1; jp_exp := Some 2 |}.

Definition verify (token secret : string) : JwtOutcome :=
  if bool_decide (token = "good") then JwtVerified claims else JwtInvalid.

Definition find (id : string) : QueryOutcome :=
  if bool_decide (id = "u1") then RowFound ann_row else RowMissing.

End AuthSample.

(** * Who a message reaches *)

(** The [operation-acknowledged] events of a list of deliveries: how each
    was sent, its [operationId] and its [newVersion]. *)
Definition acknowledgments (out : list Delivery) : list (Channel * Z * Z) :=
  omap (λ d, match event d with
             | OperationAcknowledged operationId newVersion =>
                 Some (channel d, operationId, newVersion)
             | _ => None
             end) out.

(** The socket ids of the connections of a run. *)
Definition socket_ids (frames : list Frame) : list string :=
  map (λ f, sock_id (f_sock f)) frames.

(** No join-session of the run names a session by the socket id of one of
    the run's connections. *)
Definition names_apart (frames : list Frame) : bool :=
  forallb (λ f, match f_event f with
                | JoinSession sid => negb (bool_decide (sid ∈ socket_ids frames))
                | _ => true
                end) frames.

(** Whether the connection with socket id [id] is open after the frames:
    its last [Connect] has not been followed by its [Disconnect]. *)
Definition is_connected (frames : list Frame) (id : string) : bool :=
  fold_left
    (λ open f,
       if bool_decide (sock_id (f_sock f) = id)
       then match f_event f with
            | Connect => true
            | Disconnect => false
            | _ => open
            end
       else open)
    frames false.

(** For the socket ids [ids]: no bound session is named by one of them,
    the room named by one of them holds at most that socket, and every
    open connection is in the room named by its id. *)
Definition rooms_private (ids : list string) (w : World) (open : gset string)
    : Prop :=
  (forall id sid, data_sessionId w !! id = Some sid -> sid ∉ ids)
  /\ (forall id, id ∈ ids -> room_members w id ⊆ {[ id ]})
  /\ (forall id, id ∈ open -> id ∈ room_members w id).

(** The open connections after one more frame. *)
Definition open_after (open : gset string) (f : Frame) : gset string :=
  match f_event f with
  | Connect => {[ sock_id (f_sock f) ]} ∪ open
  | Disconnect => open ∖ {[ sock_id (f_sock f) ]}
  | _ => open
  end.

(** The frame is of one of the connections [ids] and, if it is a join,
    names a session that is not one of [ids]. *)
Definition frame_apart (ids : list string) (f : Frame) : Prop :=
  sock_id (f_sock f) ∈ ids
  /\ forall sid, f_event f = JoinSession sid -> sid ∉ ids.

Module OwnRoom.

Definition connect (sock : Socket) (now : Z) : Frame :=
  {| f_sock := sock; f_event := Connect; f_now := now |}.

Definition join (sock : Socket) (sid : string) (now : Z) : Frame :=
  {| f_sock := sock; f_event := JoinSession sid; f_now := now |}.



(** The frames behind [Scenario.two_joined]. *)
Definition plain_frames : list Frame :=
  [ connect Scenario.alice 1; connect Scenario.bob 2;
    join Scenario.alice "S1" 10; join Scenario.bob "S1" 20 ].

End OwnRoom.
(** ** Facts about [slice] *)

Section SliceFacts.

Implicit Types (s : string) (n m : nat) (p : Z).

Lemma substring_empty_len n s : substring n 0 s = "".
Proof.
  revert n; induction s as [|c s IH]; intros [|n]; simpl; auto.
Qed.

Lemma substring_whole s : substring 0 (String.length s) s = s.
Proof. induction s as [|c s IH]; simpl; [reflexivity | now rewrite IH]. Qed.

Lemma append_cons c s t : String c s +:+ t = String c (s +:+ t).
Proof. reflexivity. Qed.

Lemma substring_split s n :
  (n <= String.length s)%nat ->
  substring 0 n s +:+ substring n (String.length s - n) s = s.
Proof.
  revert n; induction s as [|c s IH]; intros [|n] Hn; simpl in *.
  - reflexivity.
  - lia.
  - now rewrite substring_whole.
  - rewrite append_cons. f_equal. apply IH. lia.
Qed.

Lemma app_empty_r s : s +:+ "" = s.
Proof.
  induction s as [|c s IH]; [reflexivity | now rewrite append_cons, IH].
Qed.

Lemma relative_index_range len p :
  0 <= len -> 0 <= relative_index len p <= len.
Proof. unfold relative_index; destruct (p <? 0) eqn:E; lia. Qed.

(** The prefix up to [p] and the suffix from [p] always make up the
    whole string, wherever [p] lies. *)
Lemma slice_prefix_suffix s p :
  slice s 0 (Some p) +:+ slice s p None = s.
Proof.
  unfold slice.
  set (len := Z.of_nat (String.length s)).
  assert (Hlen : 0 <= len) by (unfold len; lia).
  pose proof (relative_index_range len p Hlen) as Hk.
  set (k := relative_index len p) in *.
  replace (relative_index len 0) with 0 by (unfold relative_index; simpl; lia).
  destruct (k <=? 0) eqn:E1; destruct (len <=? k) eqn:E2.
  - assert (len = 0) by lia.
    destruct s; [reflexivity | unfold len in *; simpl in *; lia].
  - assert (k = 0) by lia. replace k with 0. simpl.
    rewrite Z.sub_0_r. unfold len. rewrite Nat2Z.id. apply substring_whole.
  - assert (k = len) by lia. replace k with len.
    rewrite Z.sub_0_r. unfold len. rewrite Nat2Z.id.
    rewrite substring_whole. apply app_empty_r.
  - rewrite Z.sub_0_r. change (Z.to_nat 0) with 0%nat.
    replace (Z.to_nat (len - k)) with (String.length s - Z.to_nat k)%nat
      by (unfold len; lia).
    apply substring_split. unfold len in *; lia.
Qed.

Lemma slice_from_beyond s p :
  Z.of_nat (String.length s) <= p -> slice s p None = "".
Proof.
  intros Hp. unfold slice, relative_index.
  destruct (p <? 0) eqn:E; [lia |].
  rewrite Z.min_r by lia.
  now rewrite Z.leb_refl.
Qed.

Lemma slice_to_beyond s p :
  Z.of_nat (String.length s) <= p -> slice s 0 (Some p) = s.
Proof.
  intros Hp.
  rewrite <- (slice_prefix_suffix s p) at 2.
  now rewrite (slice_from_beyond s p Hp), app_empty_r.
Qed.

End SliceFacts.

Example username_of_connection :
  username Scenario.alice = "User-alice-so".
Proof. reflexivity. Qed.

Example scenario_insert_content :
  currentContent <$>
    (activeSessions (fst (text_operation Scenario.two_joined Scenario.alice
                            Scenario.insert_x 30)) !! "S1")
  = Some ("x" +:+ default_content).
Proof. vm_compute. reflexivity. Qed.

Example scenario_insert_deliveries :
  map (λ d, (channel d, elements (recipients d), event d))
    (snd (text_operation Scenario.two_joined Scenario.alice Scenario.insert_x 30))
  = [ (ToOthers, ["bob-socket-0002"],
       OperationApplied
         (complete_operation Scenario.insert_x Scenario.alice 30 "S1"));
      (ToSender, ["alice-socket-0001"], OperationAcknowledged 30 2) ].
Proof. vm_compute. reflexivity. Qed.

(** ** [applyOperation]: clamping and defaults *)

Lemma insert_beyond_end text operation :
  op_type operation = Insert ->
  text_length text <= position operation ->
  applyOperation text operation = text +:+ or_empty (content operation).
Proof.
  intros Hty Hpos. unfold applyOperation. rewrite Hty.
  rewrite slice_to_beyond, slice_from_beyond by exact Hpos.
  now rewrite app_empty_r.
Qed.

Lemma delete_beyond_end text operation :
  op_type operation = Delete ->
  text_length text <= position operation + or_zero (length_ operation) ->
  applyOperation text operation = slice text 0 (Some (position operation)).
Proof.
  intros Hty Hpos. unfold applyOperation. rewrite Hty.
  rewrite slice_from_beyond by exact Hpos.
  apply app_empty_r.
Qed.

(** C4. Clamp law, for every content and every position (the non-negative
    ones in particular).  An insert at a position beyond the end of the content
    gives what the insert at the end gives, namely the content followed by
    the payload.  A delete whose position + length lies beyond the end
    leaves exactly [content[0:position]]: what it removes is the suffix
    [content[position:]]. *)
Theorem C4_clamp_law (text : string) (operation : TextOperation) :
  (op_type operation = Insert ->
   text_length text < position operation ->
   applyOperation text operation
     = applyOperation text (with_position operation (text_length text))
   /\ applyOperation text operation = text +:+ or_empty (content operation))
  /\
  (forall n,
   op_type operation = Delete ->
   length_ operation = Some n ->
   text_length text < position operation + n ->
   applyOperation text operation = slice text 0 (Some (position operation))
   /\ applyOperation text operation +:+ slice text (position operation) None
      = text).
Proof.
  split.
  - intros Hty Hpos.
    rewrite (insert_beyond_end text operation) by (auto; lia).
    rewrite (insert_beyond_end text (with_position operation (text_length text)))
      by (simpl; auto; lia).
    split; reflexivity.
  - intros n Hty Hlen Hpos.
    assert (Hdel : applyOperation text operation
                   = slice text 0 (Some (position operation))).
    { apply delete_beyond_end; [exact Hty |].
      rewrite Hlen. unfold or_zero. destruct (n =? 0) eqn:E; lia. }
    split; [exact Hdel |].
    rewrite Hdel. apply slice_prefix_suffix.
Qed.

Lemma C4_clamp_law_witness :
  applyOperation "abc" sample_insert = "abc!"
  /\ applyOperation "abc" sample_delete = "ab".
Proof.
  split.
  - destruct (C4_clamp_law "abc" sample_insert) as [Hins _].
    destruct Hins as [_ Happ]; [reflexivity | vm_compute; reflexivity |].
    exact Happ.
  - destruct (C4_clamp_law "abc" sample_delete) as [_ Hdel].
    destruct (Hdel 10) as [Hres _];
      [reflexivity | reflexivity | vm_compute; reflexivity |].
    exact Hres.
Defined.

(** C5, as stated, fails: a delete with a negative length changes the
    content.  On "abcdef", position 3 and length -2 give
    "abc" followed by "abcdef".slice(1). *)
Lemma C5_negative_length_counterexample :
  applyOperation "abcdef" (delete_op 3 (Some (-2))) = "abcbcdef"
  /\ applyOperation "abcdef" (delete_op 3 (Some (-2))) <> "abcdef".
Proof. split; [vm_compute; reflexivity | vm_compute; discriminate]. Qed.

(** C5, amended.  A delete whose length field is missing (or is 0) leaves
    the content unchanged, at every position.  A negative length is kept
    as it is: the result is [content[0:position]] followed by
    [content.slice(position + length)]. *)
Theorem C5_delete_default_length (text : string) (operation : TextOperation) :
  op_type operation = Delete ->
  (length_ operation = None \/ length_ operation = Some 0 ->
   applyOperation text operation = text)
  /\
  (forall n, length_ operation = Some n -> n < 0 ->
   applyOperation text operation
     = slice text 0 (Some (position operation))
       +:+ slice text (position operation + n) None).
Proof.
  intros Hty. unfold applyOperation. rewrite Hty. split.
  - intros [Hlen | Hlen]; rewrite Hlen; simpl;
      rewrite Z.add_0_r; apply slice_prefix_suffix.
  - intros n Hlen Hneg. rewrite Hlen. unfold or_zero.
    destruct (n =? 0) eqn:E; [lia | reflexivity].
Qed.

Lemma C5_delete_default_length_witness :
  applyOperation "abcdef" (delete_op 3 None) = "abcdef".
Proof.
  destruct (C5_delete_default_length "abcdef" (delete_op 3 None)) as [H _];
    [reflexivity |].
  apply H. left. reflexivity.
Defined.

(** ** The text-operation handler *)

Section TextOperation.

Implicit Types (w : World) (sock : Socket) (operation : InboundOperation)
  (sid : string) (s : CollaborationSession).

Lemma text_operation_applied w sock operation now sid s :
  bound_session w sock = Some sid ->
  activeSessions w !! sid = Some s ->
  text_operation w sock operation now =
    let completeOperation := complete_operation operation sock now sid in
    let s' := apply_to_session s completeOperation now in
    let w' := with_sessions w (<[sid := s']> (activeSessions w)) in
    (w', [ socket_to_emit w' sock sid (OperationApplied completeOperation);
           socket_emit w' sock (OperationAcknowledged now (version s + 1)) ]).
Proof. intros Hb Hs. unfold text_operation. rewrite Hb, Hs. reflexivity. Qed.

Lemma text_operation_keeps_binding w sock operation now :
  data_sessionId (fst (text_operation w sock operation now)) = data_sessionId w.
Proof.
  unfold text_operation.
  destruct (bound_session w sock) as [sid|]; [| reflexivity].
  destruct (activeSessions w !! sid); reflexivity.
Qed.

Lemma text_operation_keeps_bound w sock operation now sock' :
  bound_session (fst (text_operation w sock operation now)) sock'
  = bound_session w sock'.
Proof. unfold bound_session. now rewrite text_operation_keeps_binding. Qed.

Lemma text_operation_hit w sock operation now sid s :
  bound_session w sock = Some sid ->
  activeSessions w !! sid = Some s ->
  activeSessions (fst (text_operation w sock operation now)) !! sid
  = Some (apply_to_session s (complete_operation operation sock now sid) now).
Proof.
  intros Hb Hs. rewrite (text_operation_applied _ _ _ _ _ _ Hb Hs).
  simpl. apply lookup_insert_eq.
Qed.

Lemma text_operation_miss w sock operation now sid :
  bound_session w sock <> Some sid ->
  activeSessions (fst (text_operation w sock operation now)) !! sid
  = activeSessions w !! sid.
Proof.
  intros Hb. unfold text_operation.
  destruct (bound_session w sock) as [sid'|] eqn:E; [| reflexivity].
  destruct (activeSessions w !! sid') eqn:Es; [| reflexivity].
  simpl. apply lookup_insert_ne. congruence.
Qed.

Lemma world_after_cons w f frames :
  world_after w (f :: frames)
  = world_after (fst (handle w (f_sock f) (f_event f) (f_now f))) frames.
Proof.
  unfold world_after. simpl.
  destruct (handle w (f_sock f) (f_event f) (f_now f)) as [w1 out1]. simpl.
  destruct (run w1 frames) as [w2 out2]. reflexivity.
Qed.

Lemma world_after_app w frames1 frames2 :
  world_after w (frames1 ++ frames2)
  = world_after (world_after w frames1) frames2.
Proof.
  revert w; induction frames1 as [|f frames1 IH]; intros w.
  - reflexivity.
  - rewrite <- app_comm_cons, !world_after_cons. apply IH.
Qed.

(** Frames of connections bound to [sid], all of them applied; the
    resident session is still there afterwards. *)
Lemma text_frames_fold frames : forall w sid s,
  activeSessions w !! sid = Some s ->
  Forall (λ f, bound_session w (tf_sock f) = Some sid) frames ->
  exists s',
    activeSessions (world_after w (map as_frame frames)) !! sid = Some s'
    /\ currentContent s' = fold_operations sid (currentContent s) frames
    /\ version s' = version s + Z.of_nat (length frames).
Proof.
  induction frames as [|f frames IH]; intros w sid s Hs Hall.
  - exists s. simpl. split; [exact Hs |]. split; [reflexivity | lia].
  - inversion Hall as [|? ? Hf Hrest]; subst.
    simpl map. rewrite world_after_cons. simpl.
    set (s1 := apply_to_session s (stamped sid f) (tf_now f)).
    destruct (IH (fst (text_operation w (tf_sock f) (tf_operation f) (tf_now f)))
                sid s1) as (s' & Hs' & Hc & Hv).
    + apply text_operation_hit; assumption.
    + eapply Forall_impl; [exact Hrest |].
      intros g Hg. simpl. now rewrite text_operation_keeps_bound.
    + exists s'. split; [exact Hs' |]. split.
      * rewrite Hc. reflexivity.
      * rewrite Hv. simpl. lia.
Qed.

End TextOperation.

(** No handler lowers the version of a session that stays resident. *)
Lemma handle_version_monotone (w : World) (sock : Socket) (ev : ClientEvent)
    (now : Z) (sid : string) (s s' : CollaborationSession) :
  activeSessions w !! sid = Some s ->
  activeSessions (fst (handle w sock ev now)) !! sid = Some s' ->
  version s <= version s'.
Proof.
  intros Hs Hs'.
  assert (Hleave : forall w0, activeSessions w0 = activeSessions w ->
            activeSessions (fst (handleLeaveSession w0 sock)) !! sid = Some s' ->
            version s <= version s').
  { intros w0 Hw0. unfold handleLeaveSession.
    destruct (bound_session w0 sock) as [sid0|];
      [| simpl; rewrite Hw0, Hs; intros [= <-]; lia].
    destruct (truthy (userId sock));
      [| simpl; rewrite Hw0, Hs; intros [= <-]; lia].
    rewrite Hw0.
    destruct (activeSessions w !! sid0) as [s0|] eqn:Hs0;
      [| simpl; rewrite Hw0, Hs; intros [= <-]; lia].
    simpl.
    destruct (jsmap_size (jsmap_delete (userId sock) (participants s0)) =? 0).
    - rewrite lookup_delete. destruct (decide (sid0 = sid)); [discriminate |].
      rewrite Hs. intros [= <-]. lia.
    - rewrite lookup_insert. destruct (decide (sid0 = sid)) as [->|].
      + intros [= <-]. simpl. rewrite Hs in Hs0. injection Hs0 as ->. lia.
      + rewrite Hs. intros [= <-]. lia. }
  destruct ev as [sid0|operation|data| | |]; simpl in Hs'.
  - unfold join_session, join_session_enter, join_session_resume in Hs'.
    simpl in Hs'.
    rewrite lookup_insert in Hs'. destruct (decide (sid0 = sid)) as [->|].
    + rewrite Hs in Hs'. injection Hs' as <-. simpl. lia.
    + rewrite Hs in Hs'. injection Hs' as <-. lia.
  - destruct (decide (bound_session w sock = Some sid)) as [Hb|Hb].
    + rewrite (text_operation_hit _ _ _ _ _ _ Hb Hs) in Hs'.
      injection Hs' as <-. simpl. lia.
    + rewrite (text_operation_miss _ _ _ _ _ Hb), Hs in Hs'.
      injection Hs' as <-. lia.
  - unfold cursor_update in Hs'.
    destruct (bound_session w sock) as [sid0|];
      [| simpl in Hs'; rewrite Hs in Hs'; injection Hs' as <-; lia].
    destruct (activeSessions w !! sid0) as [s0|] eqn:Hs0;
      [| simpl in Hs'; rewrite Hs in Hs'; injection Hs' as <-; lia].
    simpl in Hs'.
    destruct (jsmap_get (userId sock) (participants s0));
      [| rewrite Hs in Hs'; injection Hs' as <-; lia].
    simpl in Hs'. rewrite lookup_insert in Hs'.
    destruct (decide (sid0 = sid)) as [->|].
    + injection Hs' as <-. simpl. rewrite Hs in Hs0. injection Hs0 as ->. lia.
    + rewrite Hs in Hs'. injection Hs' as <-. lia.
  - apply (Hleave w); [reflexivity | exact Hs'].
  - apply (Hleave (socket_leave_all w sock)); [reflexivity | exact Hs'].
  - rewrite Hs in Hs'. injection Hs' as <-. lia.
Qed.

(** C1. For a resident session and any sequence of N text-operation frames
    of connections bound to it, handled in the order received: the session
    is still resident, its content is the left fold of [applyOperation]
    over the initial content in that order, and its version is the initial
    version plus N.  The version never decreases: after every prefix of
    the sequence it lies between the initial and the final version, and no
    single event of any kind lowers the version of a session that is
    resident before and after it. *)
Theorem C1_fold_and_version (w : World) (sid : string)
    (s : CollaborationSession) (frames : list TextFrame) :
  activeSessions w !! sid = Some s ->
  Forall (λ f, bound_session w (tf_sock f) = Some sid) frames ->
  content_of (world_after w (map as_frame frames)) sid
    = Some (fold_operations sid (currentContent s) frames)
  /\ version_of (world_after w (map as_frame frames)) sid
    = Some (version s + Z.of_nat (length frames))
  /\ (forall done rest, frames = done ++ rest ->
       exists v, version_of (world_after w (map as_frame done)) sid = Some v
         /\ version s <= v <= version s + Z.of_nat (length frames))
  /\ (forall w0 sock ev now v v',
       version_of w0 sid = Some v ->
       version_of (fst (handle w0 sock ev now)) sid = Some v' ->
       v <= v').
Proof.
  intros Hs Hall.
  destruct (text_frames_fold frames w sid s Hs Hall) as (s' & Hs' & Hc & Hv).
  unfold content_of, version_of. rewrite Hs'. simpl.
  split; [now rewrite Hc |]. split; [now rewrite Hv |]. split.
  - intros done rest ->.
    apply Forall_app in Hall as [Hdone _].
    destruct (text_frames_fold done w sid s Hs Hdone) as (s1 & Hs1 & _ & Hv1).
    exists (version s1). rewrite Hs1. split; [reflexivity |].
    rewrite Hv1, length_app. lia.
  - intros w0 sock ev now v v' Hv0 Hv0'.
    destruct (activeSessions w0 !! sid) as [s0|] eqn:Hs0; [| discriminate].
    destruct (activeSessions (fst (handle w0 sock ev now)) !! sid) as [s0'|]
      eqn:Hs0'; [| discriminate].
    simpl in Hv0, Hv0'. injection Hv0 as <-. injection Hv0' as <-.
    exact (handle_version_monotone w0 sock ev now sid s0 s0' Hs0 Hs0').
Qed.

Lemma C1_fold_and_version_witness :
  content_of
    (world_after Scenario.two_joined
       (map as_frame
          [ {| tf_sock := Scenario.alice; tf_operation := Scenario.insert_x;
               tf_now := 30 |};
            {| tf_sock := Scenario.bob; tf_operation := Scenario.insert_x;
               tf_now := 31 |} ])) "S1"
  = Some ("xx" +:+ default_content).
Proof.
  destruct (C1_fold_and_version Scenario.two_joined "S1"
              Scenario.session_S1
              [ {| tf_sock := Scenario.alice; tf_operation := Scenario.insert_x;
                   tf_now := 30 |};
                {| tf_sock := Scenario.bob; tf_operation := Scenario.insert_x;
                   tf_now := 31 |} ]) as [Hc _].
  - vm_compute. reflexivity.
  - repeat constructor.
  - rewrite Hc. vm_compute. reflexivity.
Defined.

(** ** Acknowledgment and errors of the text-operation handler *)

(** C2, as stated, fails: no function of the inbound frame gives the
    identifier of the acknowledgment.  The same frame of the same
    connection in the same state is acknowledged with whatever the server
    clock reads. *)
Lemma C2_ack_id_counterexample :
  ~ exists clientOpId : InboundOperation -> Z,
      forall now,
        acknowledged_ids
          (snd (text_operation Scenario.two_joined Scenario.alice
                  Scenario.insert_x now))
        = [clientOpId Scenario.insert_x].
Proof.
  intros [clientOpId H].
  pose proof (H 30) as H30. pose proof (H 31) as H31.
  vm_compute in H30, H31. congruence.
Qed.

(** C2, amended.  For every applied text operation there is exactly one
    [operation-acknowledged] event, sent with [socket.emit]; its
    [operationId] is the timestamp stamped on the operation, which is the
    server's receipt time [Date.now()], and its [newVersion] is the
    session's new version. *)
Theorem C2_ack_carries_server_timestamp (w : World) (sock : Socket)
    (operation : InboundOperation) (now : Z) (sid : string)
    (s : CollaborationSession) :
  bound_session w sock = Some sid ->
  activeSessions w !! sid = Some s ->
  acknowledgments (snd (text_operation w sock operation now))
    = [(ToSender, timestamp (complete_operation operation sock now sid),
        version s + 1)]
  /\ timestamp (complete_operation operation sock now sid) = now
  /\ version_of (fst (text_operation w sock operation now)) sid
    = Some (version s + 1).
Proof.
  intros Hb Hs.
  unfold version_of. rewrite (text_operation_hit _ _ _ _ _ _ Hb Hs).
  rewrite (text_operation_applied _ _ _ _ _ _ Hb Hs).
  repeat split.
Qed.

Lemma C2_ack_carries_server_timestamp_witness :
  acknowledgments
    (snd (text_operation Scenario.two_joined Scenario.alice Scenario.insert_x 30))
  = [(ToSender, 30, 2)].
Proof.
  destruct (C2_ack_carries_server_timestamp Scenario.two_joined Scenario.alice
              Scenario.insert_x 30 "S1" Scenario.session_S1) as (Hack & _).
  - vm_compute. reflexivity.
  - vm_compute. reflexivity.
  - rewrite Hack. reflexivity.
Defined.

(** ** Rooms and the text-operation handler *)

Lemma text_operation_keeps_rooms w sock operation now :
  rooms (fst (text_operation w sock operation now)) = rooms w.
Proof.
  unfold text_operation.
  destruct (bound_session w sock) as [sid|]; [| reflexivity].
  destruct (activeSessions w !! sid); reflexivity.
Qed.

Lemma room_members_with_sessions w m room :
  room_members (with_sessions w m) room = room_members w room.
Proof. reflexivity. Qed.

(** ** Cursor updates of an identity that is not a participant *)

(** C9, as stated, fails.  Alice and Bob are in "S1"; Alice's repeated
    join-session is overtaken, at its [await], by her leave-session.  She
    ends up bound to "S1" without being one of its participants, and her
    cursor-update is nevertheless relayed to Bob as [cursor-moved]. *)
Lemma C9_cursor_broadcast_counterexample :
  bound_session Interleaved.resumed Scenario.alice = Some "S1"
  /\ (jsmap_keys <$> (participants <$>
         activeSessions Interleaved.resumed !! "S1"))
     = Some ["bob-socket-0002"]
  /\ map (λ d, (channel d, elements (recipients d), event d))
       (snd (handle Interleaved.resumed Scenario.alice
               (CursorUpdate Interleaved.move) 40))
     = [ (ToOthers, ["bob-socket-0002"],
          CursorMoved "alice-socket-0001" "User-alice-so" Interleaved.move 40) ].
Proof. vm_compute. repeat split. Qed.

(** C9, amended.  A cursor-update from a connection whose identity is not
    a participant of its bound, resident session changes nothing in the
    server state (no participant is touched), but one [cursor-moved]
    event naming that identity is still sent with [socket.to(sessionId)],
    to the connections in the session's room that are not in the room
    named by the sender's socket id. *)
Theorem C9_cursor_of_non_participant (w : World) (sock : Socket)
    (data : CursorData) (now : Z) (sid : string) (s : CollaborationSession) :
  bound_session w sock = Some sid ->
  activeSessions w !! sid = Some s ->
  jsmap_get (userId sock) (participants s) = None ->
  handle w sock (CursorUpdate data) now
  = (w, [ {| channel := ToOthers;
             recipients := room_members w sid ∖ room_members w (sock_id sock);
             event := CursorMoved (userId sock) (username sock) data now |} ]).
Proof.
  intros Hb Hs Hp. simpl. unfold cursor_update.
  rewrite Hb, Hs, Hp. reflexivity.
Qed.

Lemma C9_cursor_of_non_participant_witness :
  fst (handle Interleaved.resumed Scenario.alice
         (CursorUpdate Interleaved.move) 40)
  = Interleaved.resumed.
Proof.
  rewrite (C9_cursor_of_non_participant Interleaved.resumed Scenario.alice
             Interleaved.move 40 "S1" Interleaved.held_session).
  - reflexivity.
  - vm_compute. reflexivity.
  - vm_compute. reflexivity.
  - vm_compute. reflexivity.
Defined.

(** ** The admission gate *)

(** C3, as stated, fails.  With a limiter that rejects every frame, a
    text-operation of a joined connection is still applied: the version of
    "S1" goes from 1 to 2, the edit is relayed, and no rejection notice is
    sent. *)
Lemma C3_admission_counterexample :
  let g := {| wsRateLimiter := tt; world := Scenario.two_joined |} in
  let f := as_frame {| tf_sock := Scenario.alice;
                       tf_operation := Scenario.insert_x; tf_now := 30 |} in
  fst (checkLimit reject_all (userId (f_sock f)) (f_now f) (wsRateLimiter g))
    = false
  /\ version_of (world g) "S1" = Some 1
  /\ version_of (world (fst (on_frame g f))) "S1" = Some 2
  /\ map event (snd (on_frame g f))
     = [ OperationApplied
           (complete_operation Scenario.insert_x Scenario.alice 30 "S1");
         OperationAcknowledged 30 2 ].
Proof. vm_compute. repeat split. Qed.

(** C3, amended.  No admission check takes part in the handling of an
    inbound frame: the frame goes straight to its handler, the limiter is
    neither consulted nor charged, and the resulting session state and
    deliveries are the handler's whatever the limiter would answer. *)
Theorem C3_frames_bypass_the_gate {L : Type} (g : Gateway L) (f : Frame) :
  wsRateLimiter (fst (on_frame g f)) = wsRateLimiter g
  /\ world (fst (on_frame g f))
     = fst (handle (world g) (f_sock f) (f_event f) (f_now f))
  /\ snd (on_frame g f)
     = snd (handle (world g) (f_sock f) (f_event f) (f_now f))
  /\ forall l : L,
       world (fst (on_frame {| wsRateLimiter := l; world := world g |} f))
         = world (fst (on_frame g f))
       /\ snd (on_frame {| wsRateLimiter := l; world := world g |} f)
         = snd (on_frame g f).
Proof.
  unfold on_frame. simpl.
  destruct (handle (world g) (f_sock f) (f_event f) (f_now f)) as [w' out].
  simpl. repeat split.
Qed.

(** ** Session lifecycle: cleanup on last leave, fresh start on join *)

Section Lifecycle.

Implicit Types (w : World) (sock : Socket) (sid : string)
  (s : CollaborationSession).

Lemma jsmap_set_nonempty {V} k (v : V) m : jsmap_set k v m ≠ [].
Proof. destruct m as [|[k' v'] m]; simpl; [| destruct (decide (k = k'))]; discriminate. Qed.

Lemma jsmap_size_zero {V} (m : JsMap.t V) : jsmap_size m = 0 <-> m = [].
Proof.
  unfold jsmap_size. destruct m; simpl; split; intros H;
    try reflexivity; try discriminate; lia.
Qed.

Lemma no_empty_session_initial : no_empty_session initial_world.
Proof. apply map_Forall_empty. Qed.

Lemma no_empty_session_leave w sock :
  no_empty_session w -> no_empty_session (fst (handleLeaveSession w sock)).
Proof.
  intros Hinv. unfold handleLeaveSession.
  destruct (bound_session w sock) as [sid|]; [| exact Hinv].
  destruct (truthy (userId sock)); [| exact Hinv].
  destruct (activeSessions w !! sid) as [s|] eqn:Hs; [| exact Hinv].
  unfold no_empty_session. simpl.
  destruct (jsmap_size (jsmap_delete (userId sock) (participants s)) =? 0) eqn:E.
  - apply map_Forall_delete. exact Hinv.
  - apply map_Forall_insert_2; [| exact Hinv].
    simpl. intros Hnil. apply jsmap_size_zero in Hnil. lia.
Qed.

Lemma no_empty_session_step w sock ev now :
  no_empty_session w -> no_empty_session (fst (handle w sock ev now)).
Proof.
  intros Hinv. destruct ev as [sid|operation|data| | |]; simpl.
  - unfold no_empty_session. simpl.
    apply map_Forall_insert_2; [| exact Hinv].
    simpl. apply jsmap_set_nonempty.
  - unfold text_operation.
    destruct (bound_session w sock) as [sid|]; [| exact Hinv].
    destruct (activeSessions w !! sid) as [s|] eqn:Hs; [| exact Hinv].
    unfold no_empty_session. simpl.
    apply map_Forall_insert_2; [| exact Hinv].
    simpl. exact (Hinv sid s Hs).
  - unfold cursor_update.
    destruct (bound_session w sock) as [sid|]; [| exact Hinv].
    destruct (activeSessions w !! sid) as [s|] eqn:Hs; [| exact Hinv].
    simpl.
    destruct (jsmap_get (userId sock) (participants s)); [| exact Hinv].
    unfold no_empty_session. simpl.
    apply map_Forall_insert_2; [| exact Hinv].
    simpl. apply jsmap_set_nonempty.
  - apply no_empty_session_leave. exact Hinv.
  - unfold disconnect. apply no_empty_session_leave. exact Hinv.
  - exact Hinv.
Qed.

Lemma no_empty_session_run frames : forall w,
  no_empty_session w -> no_empty_session (world_after w frames).
Proof.
  induction frames as [|f frames IH]; intros w Hinv.
  - exact Hinv.
  - rewrite world_after_cons. apply IH, no_empty_session_step, Hinv.
Qed.

Lemma last_leave_removes_session w sock sid s :
  bound_session w sock = Some sid ->
  truthy (userId sock) = true ->
  activeSessions w !! sid = Some s ->
  jsmap_delete (userId sock) (participants s) = [] ->
  activeSessions (fst (handleLeaveSession w sock)) !! sid = None.
Proof.
  intros Hb Hu Hs Hlast. unfold handleLeaveSession.
  rewrite Hb, Hu, Hs, Hlast. simpl. apply lookup_delete_eq.
Qed.

Lemma join_creates_fresh_session w sock sid now :
  activeSessions w !! sid = None ->
  activeSessions (fst (join_session w sock sid now)) !! sid
    = Some {| sessionId := sid;
              projectId := "temp-project";
              participants := [(userId sock, joining_participant sock now)];
              currentContent := default_content;
              version := 1;
              lastActivity := now |}
  /\ head (snd (join_session w sock sid now))
    = Some (socket_emit (fst (join_session w sock sid now)) sock
              (SessionJoined sid default_content 1
                 [participant_view (joining_participant sock now)])).
Proof.
  intros Hs. unfold join_session, join_session_enter, join_session_resume.
  rewrite Hs. simpl. split.
  - apply lookup_insert_eq.
  - reflexivity.
Qed.

End Lifecycle.

(** C7. Cleanup law.  When a leave or a disconnect removes the last
    participant of the connection's bound session, that session is no
    longer resident afterwards, and the next join with the same sessionId
    creates a new session with the default content, version 1 and the
    joiner as only participant, which is what the joiner is told in
    [session-joined].  In every state reached from the empty store by any
    frames, no resident session has an empty participant set. *)
Theorem C7_cleanup_then_fresh (w : World) (sock : Socket) (ev : ClientEvent)
    (now : Z) (sid : string) (s : CollaborationSession) :
  is_leave ev = true ->
  bound_session w sock = Some sid ->
  truthy (userId sock) = true ->
  activeSessions w !! sid = Some s ->
  jsmap_delete (userId sock) (participants s) = [] ->
  let w1 := fst (handle w sock ev now) in
  activeSessions w1 !! sid = None
  /\ (forall sock' now',
        let joined := join_session w1 sock' sid now' in
        content_of (fst joined) sid = Some default_content
        /\ version_of (fst joined) sid = Some 1
        /\ (participants <$> activeSessions (fst joined) !! sid)
           = Some [(userId sock', joining_participant sock' now')]
        /\ head (snd joined)
           = Some (socket_emit (fst joined) sock'
                     (SessionJoined sid default_content 1
                        [participant_view (joining_participant sock' now')])))
  /\ (forall frames, no_empty_session (world_after initial_world frames)).
Proof.
  intros Hev Hb Hu Hs Hlast w1.
  assert (Hgone : activeSessions w1 !! sid = None).
  { subst w1. destruct ev; try discriminate Hev; simpl.
    - apply (last_leave_removes_session w sock sid s); assumption.
    - unfold disconnect.
      apply (last_leave_removes_session (socket_leave_all w sock) sock sid s);
        assumption. }
  split; [exact Hgone |]. split.
  - intros sock' now' joined.
    destruct (join_creates_fresh_session w1 sock' sid now' Hgone) as [Hnew Hout].
    subst joined. unfold content_of, version_of. rewrite Hnew. simpl.
    repeat split. exact Hout.
  - intros frames. apply no_empty_session_run, no_empty_session_initial.
Qed.

Lemma C7_cleanup_then_fresh_witness :
  let w := world_after initial_world
             [ {| f_sock := Scenario.alice; f_event := JoinSession "S2";
                  f_now := 10 |};
               as_frame {| tf_sock := Scenario.alice;
                           tf_operation := Scenario.insert_x; tf_now := 20 |} ] in
  content_of w "S2" = Some ("x" +:+ default_content)
  /\ content_of
       (fst (join_session (fst (handle w Scenario.alice Disconnect 30))
               Scenario.bob "S2" 40)) "S2"
     = Some default_content.
Proof.
  intros w. split; [vm_compute; reflexivity |].
  destruct (C7_cleanup_then_fresh w Scenario.alice Disconnect 30 "S2"
              (default (new_session "S2" 10) (activeSessions w !! "S2")))
    as (_ & Hjoin & _).
  - reflexivity.
  - vm_compute. reflexivity.
  - reflexivity.
  - vm_compute. reflexivity.
  - vm_compute. reflexivity.
  - destruct (Hjoin Scenario.bob 40) as [Hc _]. exact Hc.
Defined.

(** ** Order of the participants in [session-joined] *)

Section JoinOrder.

Implicit Types (w : World) (sock : Socket) (sid : string)
  (s : CollaborationSession) (m : JsMap.t SessionParticipant)
  (p : SessionParticipant).

Lemma jsmap_set_fresh {V} k (v : V) (m : JsMap.t V) :
  jsmap_get k m = None -> jsmap_set k v m = m ++ [(k, v)].
Proof.
  induction m as [|[k' v'] m IH]; simpl; [reflexivity |].
  destruct (decide (k = k')); [discriminate |].
  intros H. now rewrite IH.
Qed.












(** What [session-joined] lists is the participant map of the joined
    session as the join leaves it. *)
Lemma join_payload w sock sid now :
  exists s',
    activeSessions (fst (join_session w sock sid now)) !! sid = Some s'
    /\ joined_payloads (snd (join_session w sock sid now))
       = [map participant_view (jsmap_values (participants s'))].
Proof.
  unfold join_session, join_session_enter, join_session_resume. simpl.
  eexists. split.
  - apply lookup_insert_eq.
  - reflexivity.
Qed.

Lemma no_payload_without_join w sock ev now :
  (forall sid, ev <> JoinSession sid) ->
  joined_payloads (snd (handle w sock ev now)) = [].
Proof.
  intros Hev. destruct ev as [sid|operation|data| | |]; simpl.
  - destruct (Hev sid). reflexivity.
  - unfold text_operation.
    destruct (bound_session w sock) as [sid|]; [| reflexivity].
    destruct (activeSessions w !! sid); reflexivity.
  - unfold cursor_update.
    destruct (bound_session w sock) as [sid|]; [| reflexivity].
    destruct (activeSessions w !! sid); reflexivity.
  - unfold handleLeaveSession.
    destruct (bound_session w sock) as [sid|]; [| reflexivity].
    destruct (truthy (userId sock)); [| reflexivity].
    destruct (activeSessions w !! sid); reflexivity.
  - unfold disconnect, handleLeaveSession.
    destruct (bound_session (socket_leave_all w sock) sock) as [sid|];
      [| reflexivity].
    destruct (truthy (userId sock)); [| reflexivity].
    destruct (activeSessions (socket_leave_all w sock) !! sid); reflexivity.
  - reflexivity.
Qed.

Lemma outbox_cons w f frames :
  outbox w (f :: frames)
  = snd (handle w (f_sock f) (f_event f) (f_now f))
    ++ outbox (fst (handle w (f_sock f) (f_event f) (f_now f))) frames.
Proof.
  unfold outbox. simpl.
  destruct (handle w (f_sock f) (f_event f) (f_now f)) as [w1 out1]. simpl.
  destruct (run w1 frames) as [w2 out2]. reflexivity.
Qed.

Lemma joined_payloads_app out1 out2 :
  joined_payloads (out1 ++ out2) = joined_payloads out1 ++ joined_payloads out2.
Proof. unfold joined_payloads. apply omap_app. Qed.


End JoinOrder.




(** * Further properties of the session engine *)

(** ** Lengths of slices *)

Section SliceLengths.

Implicit Types (s t : string) (n m : nat) (p : Z).

Lemma length_append s t :
  String.length (s +:+ t) = (String.length s + String.length t)%nat.
Proof.
  induction s as [|c s IH]; [reflexivity |].
  rewrite append_cons. simpl. now rewrite IH.
Qed.

Lemma append_assoc s t u : (s +:+ t) +:+ u = s +:+ (t +:+ u).
Proof.
  induction s as [|c s IH]; [reflexivity |].
  rewrite !append_cons. now rewrite IH.
Qed.

Lemma length_substring s : forall n m,
  (n + m <= String.length s)%nat -> String.length (substring n m s) = m.
Proof.
  induction s as [|c s IH]; intros [|n] [|m] H; simpl in *;
    try reflexivity; try lia.
  - f_equal. apply (IH 0%nat m). lia.
  - apply (IH n 0%nat). lia.
  - apply (IH n (S m)). lia.
Qed.

Lemma substring_prefix_of_append s t :
  substring 0 (String.length s) (s +:+ t) = s.
Proof.
  induction s as [|c s IH].
  - destruct t; reflexivity.
  - rewrite append_cons. simpl. now rewrite IH.
Qed.

Lemma substring_past_prefix s t : forall m,
  substring (String.length s) m (s +:+ t) = substring 0 m t.
Proof.
  induction s as [|c s IH]; intros m; [reflexivity |].
  rewrite append_cons. simpl. apply IH.
Qed.

Lemma relative_index_idem len p :
  0 <= len -> relative_index len (relative_index len p) = relative_index len p.
Proof.
  intros Hlen. pose proof (relative_index_range len p Hlen) as H.
  unfold relative_index at 1.
  destruct (relative_index len p <? 0) eqn:E; lia.
Qed.

Lemma text_length_nonneg s : 0 <= text_length s.
Proof. unfold text_length. lia. Qed.

Lemma slice_length s p (e : option Z) :
  text_length (slice s p e)
  = Z.max 0 (match e with
             | None => text_length s
             | Some q => relative_index (text_length s) q
             end - relative_index (text_length s) p).
Proof.
  unfold slice. fold (text_length s).
  pose proof (text_length_nonneg s) as Hlen.
  pose proof (relative_index_range (text_length s) p Hlen) as Hp.
  set (from := relative_index (text_length s) p) in *.
  assert (Hto : 0 <= match e with
                     | None => text_length s
                     | Some q => relative_index (text_length s) q
                     end <= text_length s).
  { destruct e as [q|]; [apply relative_index_range; exact Hlen | lia]. }
  set (to := match e with
             | None => text_length s
             | Some q => relative_index (text_length s) q
             end) in *.
  destruct (to <=? from) eqn:E.
  - unfold text_length at 1. simpl. lia.
  - unfold text_length at 1. rewrite length_substring.
    + lia.
    + unfold text_length in *. lia.
Qed.

(** A position and its resolved index cut the string at the same place. *)
Lemma slice_to_resolved s p :
  slice s 0 (Some (relative_index (text_length s) p)) = slice s 0 (Some p).
Proof.
  unfold slice. fold (text_length s).
  now rewrite relative_index_idem by apply text_length_nonneg.
Qed.

Lemma slice_from_resolved s p :
  slice s (relative_index (text_length s) p) None = slice s p None.
Proof.
  unfold slice. fold (text_length s).
  now rewrite relative_index_idem by apply text_length_nonneg.
Qed.

Lemma text_length_zero s : text_length s = 0 -> s = "".
Proof. destruct s; [reflexivity | unfold text_length; simpl; lia]. Qed.

Lemma prefix_length s k :
  0 <= k <= text_length s -> text_length (slice s 0 (Some k)) = k.
Proof.
  intros Hk. rewrite slice_length. unfold relative_index.
  destruct (k <? 0) eqn:E; [lia |]. simpl. lia.
Qed.

Lemma text_length_append s t :
  text_length (s +:+ t) = text_length s + text_length t.
Proof. unfold text_length. rewrite length_append. lia. Qed.

End SliceLengths.

(** ** [applyOperation]: sizes, resolved positions, undoing an insert *)

(** X1. An insert never drops anything: whatever the position (in range,
    beyond the end or negative), the result is as long as the content
    plus the payload. *)
Theorem insert_adds_payload_length (text : string) (operation : TextOperation) :
  op_type operation = Insert ->
  text_length (applyOperation text operation)
  = text_length text + text_length (or_empty (content operation)).
Proof.
  intros Hty. unfold applyOperation. rewrite Hty.
  rewrite !text_length_append.
  rewrite <- (slice_prefix_suffix text (position operation)) at 3.
  rewrite text_length_append. lia.
Qed.

Lemma insert_adds_payload_length_witness :
  text_length (applyOperation "abc" (text_op Insert (-1) (Some "xy") None)) = 5.
Proof.
  rewrite (insert_adds_payload_length "abc" (text_op Insert (-1) (Some "xy") None)).
  - reflexivity.
  - reflexivity.
Defined.

(** X2. Every insert is an insert at an index in range: position [p] acts
    as the index [k] that [slice] resolves it to ([p] itself when
    0 <= p <= length, the length when [p] is larger, length + p counted
    from the end when [p] is negative, 0 when that is still negative), and
    exactly [k] code units of the content stand before the payload. *)
Theorem insert_at_resolved_index (text : string) (operation : TextOperation) :
  op_type operation = Insert ->
  let k := relative_index (text_length text) (position operation) in
  0 <= k <= text_length text
  /\ applyOperation text operation
     = applyOperation text (with_position operation k)
  /\ applyOperation text operation
     = slice text 0 (Some k) +:+ or_empty (content operation)
       +:+ slice text k None
  /\ text_length (slice text 0 (Some k)) = k.
Proof.
  intros Hty k.
  pose proof (relative_index_range (text_length text) (position operation)
                (text_length_nonneg text)) as Hk.
  fold k in Hk.
  assert (Hres : applyOperation text operation
                 = slice text 0 (Some k) +:+ or_empty (content operation)
                   +:+ slice text k None).
  { unfold applyOperation. rewrite Hty. unfold k.
    now rewrite slice_to_resolved, slice_from_resolved. }
  split; [exact Hk |]. split; [| split; [exact Hres |]].
  - rewrite Hres. unfold applyOperation. simpl. rewrite Hty. reflexivity.
  - apply prefix_length. exact Hk.
Qed.

Lemma insert_at_resolved_index_witness :
  applyOperation "abcd" (text_op Insert (-1) (Some "X") None) = "abcXd".
Proof.
  destruct (insert_at_resolved_index "abcd" (text_op Insert (-1) (Some "X") None))
    as (_ & _ & H & _).
  - reflexivity.
  - rewrite H. vm_compute. reflexivity.
Defined.

(** X3. A delete at a non-negative position with a non-negative length
    removes min(length, what is left from the position on) code units:
    exactly [length] when position + length is within the content, fewer
    when it runs past the end, none when the position is at or beyond the
    end.  It never makes the content longer. *)
Theorem delete_removes_at_most_length (text : string)
    (operation : TextOperation) (n : Z) :
  op_type operation = Delete ->
  length_ operation = Some n ->
  0 <= position operation ->
  0 <= n ->
  text_length (applyOperation text operation)
  = text_length text
    - Z.min n (Z.max 0 (text_length text - position operation)).
Proof.
  intros Hty Hlen Hp Hn. unfold applyOperation. rewrite Hty, Hlen.
  assert (Hz : or_zero (Some n) = n).
  { unfold or_zero. destruct (n =? 0) eqn:E; lia. }
  rewrite Hz, text_length_append, !slice_length.
  pose proof (text_length_nonneg text) as Hl.
  unfold relative_index.
  destruct (position operation <? 0) eqn:E1; [lia |].
  destruct (position operation + n <? 0) eqn:E2; [lia |].
  simpl. lia.
Qed.

Lemma delete_removes_at_most_length_witness :
  text_length (applyOperation "abcdef" (text_op Delete 4 None (Some 5))) = 4.
Proof.
  rewrite (delete_removes_at_most_length "abcdef"
             (text_op Delete 4 None (Some 5)) 5).
  - reflexivity.
  - reflexivity.
  - reflexivity.
  - simpl. lia.
  - lia.
Defined.

(** X4. An insert is undone by the delete of as many code units as the
    payload has, at the index the insert resolved its position to. *)
Theorem delete_undoes_insert (text : string) (ins del : TextOperation) :
  op_type ins = Insert ->
  op_type del = Delete ->
  position del = relative_index (text_length text) (position ins) ->
  length_ del = Some (text_length (or_empty (content ins))) ->
  applyOperation (applyOperation text ins) del = text.
Proof.
  intros Hins Hdel Hpos Hlen.
  pose proof (text_length_nonneg text) as Hl.
  pose proof (relative_index_range (text_length text) (position ins) Hl) as Hk.
  set (k := relative_index (text_length text) (position ins)) in *.
  set (payload := or_empty (content ins)).
  assert (Hres : applyOperation text ins
                 = slice text 0 (Some k) +:+ payload +:+ slice text k None).
  { unfold applyOperation. rewrite Hins. unfold k, payload.
    now rewrite slice_to_resolved, slice_from_resolved. }
  assert (Hpre : text_length (slice text 0 (Some k)) = k).
  { apply prefix_length. exact Hk. }
  set (pre := slice text 0 (Some k)) in *.
  set (suf := slice text k None) in *.
  assert (Htext : pre +:+ suf = text) by apply slice_prefix_suffix.
  rewrite Hres. unfold applyOperation at 1. rewrite Hdel, Hpos, Hlen.
  fold payload.
  assert (Hz : or_zero (Some (text_length payload)) = text_length payload).
  { unfold or_zero. destruct (text_length payload =? 0) eqn:E; lia. }
  rewrite Hz.
  pose proof (text_length_nonneg payload) as Hpl.
  pose proof (text_length_nonneg suf) as Hsl.
  assert (Hfull : text_length (pre +:+ payload +:+ suf)
                  = k + text_length payload + text_length suf).
  { rewrite !text_length_append. lia. }
  assert (Hfirst : slice (pre +:+ payload +:+ suf) 0 (Some k) = pre).
  { unfold slice. fold (text_length (pre +:+ payload +:+ suf)).
    rewrite Hfull. unfold relative_index. simpl.
    destruct (k <? 0) eqn:E; [lia |].
    rewrite Z.min_l by lia. rewrite Z.min_l by lia.
    destruct (k <=? 0) eqn:E0.
    - symmetry. apply text_length_zero. lia.
    - rewrite Z.sub_0_r. change (Z.to_nat 0) with 0%nat.
      replace (Z.to_nat k) with (String.length pre)
        by (unfold text_length in Hpre; lia).
      apply substring_prefix_of_append. }
  assert (Hsecond :
    slice (pre +:+ payload +:+ suf) (k + text_length payload) None = suf).
  { unfold slice. fold (text_length (pre +:+ payload +:+ suf)).
    rewrite Hfull. unfold relative_index.
    destruct (k + text_length payload <? 0) eqn:E; [lia |].
    rewrite Z.min_l by lia.
    destruct (k + text_length payload + text_length suf
              <=? k + text_length payload) eqn:E0.
    - symmetry. apply text_length_zero. lia.
    - rewrite <- append_assoc.
      replace (Z.to_nat (k + text_length payload))
        with (String.length (pre +:+ payload))
        by (rewrite length_append; unfold text_length in *; lia).
      rewrite substring_past_prefix.
      replace (Z.to_nat (k + text_length payload + text_length suf
                         - (k + text_length payload)))
        with (String.length suf) by (unfold text_length; lia).
      apply substring_whole. }
  rewrite Hfirst, Hsecond. exact Htext.
Qed.

Lemma delete_undoes_insert_witness :
  applyOperation
    (applyOperation "hello" (text_op Insert 9 (Some "!!") None))
    (text_op Delete 5 None (Some 2))
  = "hello".
Proof.
  apply (delete_undoes_insert "hello" (text_op Insert 9 (Some "!!") None)
           (text_op Delete 5 None (Some 2))); reflexivity.
Defined.

(** ** Lookups in a participant map *)

Section JsMapFacts.

Context {V : Type}.
Implicit Types (k : string) (v : V) (m : JsMap.t V).

Lemma jsmap_get_set_eq k v m : jsmap_get k (jsmap_set k v m) = Some v.
Proof.
  induction m as [|[k' v'] m IH]; simpl.
  - destruct (decide (k = k)); [reflexivity | contradiction].
  - destruct (decide (k = k')) as [->|Hne]; simpl.
    + destruct (decide (k' = k')); [reflexivity | contradiction].
    + destruct (decide (k = k')); [contradiction | exact IH].
Qed.

Lemma jsmap_get_set_ne k k0 v m :
  k0 <> k -> jsmap_get k0 (jsmap_set k v m) = jsmap_get k0 m.
Proof.
  intros Hne. induction m as [|[k' v'] m IH]; simpl.
  - destruct (decide (k0 = k)); [contradiction | reflexivity].
  - destruct (decide (k = k')) as [->|Hkk']; simpl.
    + destruct (decide (k0 = k')); [contradiction | reflexivity].
    + destruct (decide (k0 = k')); [reflexivity | exact IH].
Qed.

Lemma jsmap_get_delete_eq k m : jsmap_get k (jsmap_delete k m) = None.
Proof.
  induction m as [|[k' v'] m IH]; simpl; [reflexivity |].
  destruct (decide (k = k')) as [->|Hne]; simpl; [exact IH |].
  destruct (decide (k = k')); [contradiction | exact IH].
Qed.

Lemma jsmap_get_delete_ne k k0 m :
  k0 <> k -> jsmap_get k0 (jsmap_delete k m) = jsmap_get k0 m.
Proof.
  intros Hne. induction m as [|[k' v'] m IH]; simpl; [reflexivity |].
  destruct (decide (k = k')) as [->|Hkk']; simpl.
  - destruct (decide (k0 = k')); [contradiction | exact IH].
  - destruct (decide (k0 = k')); [reflexivity | exact IH].
Qed.

Lemma jsmap_keys_set_present k v m :
  is_Some (jsmap_get k m) -> jsmap_keys (jsmap_set k v m) = jsmap_keys m.
Proof.
  induction m as [|[k' v'] m IH]; simpl; intros [x Hx]; [discriminate |].
  destruct (decide (k = k')) as [->|Hne]; [reflexivity |].
  unfold jsmap_keys in *. simpl. f_equal. apply IH. eauto.
Qed.

Lemma jsmap_keys_set_absent k v m :
  jsmap_get k m = None -> jsmap_keys (jsmap_set k v m) = jsmap_keys m ++ [k].
Proof.
  intros H. rewrite (jsmap_set_fresh k v m H).
  unfold jsmap_keys. now rewrite map_app.
Qed.

Lemma jsmap_get_None_keys k m : jsmap_get k m = None <-> k ∉ jsmap_keys m.
Proof.
  induction m as [|[k' v'] m IH]; simpl.
  - split; [intros _; apply not_elem_of_nil | reflexivity].
  - unfold jsmap_keys in *. simpl. rewrite not_elem_of_cons.
    destruct (decide (k = k')) as [->|Hne].
    + split; [discriminate | intros [H _]; contradiction].
    + rewrite IH. tauto.
Qed.

Lemma jsmap_keys_delete k m :
  jsmap_keys (jsmap_delete k m) = filter (λ k', k' <> k) (jsmap_keys m).
Proof.
  induction m as [|[k' v'] m IH]; [reflexivity |].
  unfold jsmap_keys in *. simpl. rewrite filter_cons. simpl.
  destruct (decide (k = k')) as [->|Hne].
  - destruct (decide (k' <> k')); [contradiction | exact IH].
  - destruct (decide (k' <> k)) as [_|Hn]; [| destruct Hn; congruence].
    simpl. now rewrite IH.
Qed.

End JsMapFacts.

(** ** What each handler leaves alone *)

Lemma fold_noop_operations sid frames : forall text,
  Forall (λ f, is_noop_type (in_type (tf_operation f)) = true) frames ->
  fold_operations sid text frames = text.
Proof.
  induction frames as [|f frames IH]; intros text Hall; [reflexivity |].
  inversion Hall as [|? ? Hf Hrest]; subst.
  unfold fold_operations in *. simpl.
  replace (applyOperation text (stamped sid f)) with text; [apply IH, Hrest |].
  unfold applyOperation, stamped. simpl.
  destruct (in_type (tf_operation f)); try discriminate Hf; reflexivity.
Qed.

(** X5. Retain operations (and operations of an unknown type) count as
    edits but change no text: after N such frames of connections bound to
    a resident session the content is what it was and the version has
    grown by N. *)
Theorem retain_bumps_version_only (w : World) (sid : string)
    (s : CollaborationSession) (frames : list TextFrame) :
  activeSessions w !! sid = Some s ->
  Forall (λ f, bound_session w (tf_sock f) = Some sid) frames ->
  Forall (λ f, is_noop_type (in_type (tf_operation f)) = true) frames ->
  content_of (world_after w (map as_frame frames)) sid
    = Some (currentContent s)
  /\ version_of (world_after w (map as_frame frames)) sid
    = Some (version s + Z.of_nat (length frames)).
Proof.
  intros Hs Hall Hnoop.
  destruct (text_frames_fold frames w sid s Hs Hall) as (s' & Hs' & Hc & Hv).
  unfold content_of, version_of. rewrite Hs'. simpl.
  rewrite Hc, Hv, (fold_noop_operations sid frames _ Hnoop). split; reflexivity.
Qed.

Ltac open_handler :=
  repeat match goal with
  | |- context [match bound_session ?w ?s with _ => _ end] =>
      destruct (bound_session w s) eqn:?
  | |- context [match activeSessions ?w !! ?sid with _ => _ end] =>
      destruct (activeSessions w !! sid) eqn:?
  | |- context [if truthy ?u then _ else _] => destruct (truthy u) eqn:?
  | |- context [match jsmap_get ?k ?m with _ => _ end] =>
      destruct (jsmap_get k m) eqn:?
  | |- context [if ?a =? ?b then _ else _] => destruct (a =? b) eqn:?
  end.

Section Rooms.

Implicit Types (w : World) (sock : Socket) (room sid id : string).

Lemma members_after_join w sock sid room id :
  id ∈ default ∅ (socket_join w sock sid !! room)
  <-> (room = sid /\ id = sock_id sock) \/ id ∈ room_members w room.
Proof.
  unfold socket_join, room_members. rewrite lookup_insert.
  destruct (decide (sid = room)) as [->|Hne]; simpl.
  - rewrite elem_of_union, elem_of_singleton. tauto.
  - split; [tauto | intros [[Heq _]|H]; [congruence | exact H]].
Qed.

Lemma members_after_leave w sock sid room id :
  id ∈ default ∅ (socket_leave w sock sid !! room)
  <-> id ∈ room_members w room /\ ~ (room = sid /\ id = sock_id sock).
Proof.
  unfold socket_leave, room_members. rewrite lookup_insert.
  destruct (decide (sid = room)) as [->|Hne]; simpl.
  - rewrite elem_of_difference, elem_of_singleton. tauto.
  - split; [intros H; split; [exact H | intros [Heq _]; congruence] | tauto].
Qed.

Lemma members_after_leave_all w sock room id :
  id ∈ room_members (socket_leave_all w sock) room
  <-> id ∈ room_members w room /\ id <> sock_id sock.
Proof.
  unfold socket_leave_all, room_members. simpl. rewrite lookup_fmap.
  destruct (rooms w !! room) as [members|]; simpl.
  - rewrite elem_of_difference, elem_of_singleton. tauto.
  - split; [intros H; apply not_elem_of_empty in H; contradiction | tauto].
Qed.

Lemma leave_keeps_other_sessions w sock sid :
  bound_session w sock <> Some sid ->
  activeSessions (fst (handleLeaveSession w sock)) !! sid
  = activeSessions w !! sid.
Proof.
  intros Hb. unfold handleLeaveSession. open_handler; try reflexivity; simpl.
  - apply lookup_delete_ne. congruence.
  - apply lookup_insert_ne. congruence.
Qed.

Lemma leave_keeps_other_bindings w sock id :
  id <> sock_id sock ->
  data_sessionId (fst (handleLeaveSession w sock)) !! id
  = data_sessionId w !! id.
Proof.
  intros Hid. unfold handleLeaveSession. open_handler; try reflexivity; simpl;
    apply lookup_delete_ne; congruence.
Qed.

Lemma leave_keeps_other_members w sock room id :
  id <> sock_id sock ->
  id ∈ room_members (fst (handleLeaveSession w sock)) room
  <-> id ∈ room_members w room.
Proof.
  intros Hid. unfold handleLeaveSession. open_handler; try reflexivity;
    unfold room_members at 1; simpl; rewrite members_after_leave; tauto.
Qed.

End Rooms.

(** X6. An event touches one session and one connection only.  Every
    session other than the one the event is about (the one a join names,
    the bound one otherwise) is left exactly as it was; so is the binding
    of every other connection, and so is the room membership of every
    other connection. *)
Theorem handle_leaves_others_alone (w : World) (sock : Socket)
    (ev : ClientEvent) (now : Z) :
  (forall sid, target_session w sock ev <> Some sid ->
     activeSessions (fst (handle w sock ev now)) !! sid
     = activeSessions w !! sid)
  /\ (forall id, id <> sock_id sock ->
        data_sessionId (fst (handle w sock ev now)) !! id
        = data_sessionId w !! id)
  /\ (forall room id, id <> sock_id sock ->
        id ∈ room_members (fst (handle w sock ev now)) room
        <-> id ∈ room_members w room).
Proof.
  destruct ev as [sid0|operation|data| | |]; simpl.
  - unfold join_session, join_session_enter, join_session_resume. simpl.
    split; [| split].
    + intros sid Hsid. apply lookup_insert_ne. congruence.
    + intros id Hid. apply lookup_insert_ne. congruence.
    + intros room id Hid. unfold room_members at 1. simpl.
      rewrite members_after_join. tauto.
  - split; [| split].
    + intros sid Hsid. apply text_operation_miss. exact Hsid.
    + intros id _. now rewrite text_operation_keeps_binding.
    + intros room id _. unfold room_members.
      now rewrite text_operation_keeps_rooms.
  - unfold cursor_update. split; [| split].
    + intros sid Hsid. open_handler; try reflexivity. simpl.
      apply lookup_insert_ne. congruence.
    + intros id _. open_handler; reflexivity.
    + intros room id _. open_handler; reflexivity.
  - split; [| split].
    + intros sid. apply leave_keeps_other_sessions.
    + intros id. apply leave_keeps_other_bindings.
    + intros room id. apply leave_keeps_other_members.
  - unfold disconnect. split; [| split].
    + intros sid Hsid.
      now rewrite (leave_keeps_other_sessions (socket_leave_all w sock)).
    + intros id Hid.
      now rewrite (leave_keeps_other_bindings (socket_leave_all w sock)).
    + intros room id Hid.
      rewrite (leave_keeps_other_members (socket_leave_all w sock)) by exact Hid.
      rewrite members_after_leave_all. tauto.
  - unfold on_connection. simpl. split; [| split]; try reflexivity.
    intros room id Hid. unfold room_members at 1. simpl.
    rewrite members_after_join. tauto.
Qed.

Lemma retain_bumps_version_only_witness :
  version_of
    (world_after TwoSessions.apart
       (map as_frame
          [ {| tf_sock := Scenario.alice;
               tf_operation := TwoSessions.retain_op; tf_now := 30 |} ])) "S1"
  = Some 2.
Proof.
  destruct (retain_bumps_version_only TwoSessions.apart "S1"
              (default (new_session "S1" 10)
                 (activeSessions TwoSessions.apart !! "S1"))
              [ {| tf_sock := Scenario.alice;
                   tf_operation := TwoSessions.retain_op; tf_now := 30 |} ])
    as [_ Hv].
  - vm_compute. reflexivity.
  - repeat constructor.
  - repeat constructor.
  - rewrite Hv. vm_compute. reflexivity.
Defined.

Lemma handle_leaves_others_alone_witness :
  activeSessions
    (fst (handle TwoSessions.apart Scenario.alice
            (TextOperationEvent Scenario.insert_x) 30)) !! "S2"
  = activeSessions TwoSessions.apart !! "S2".
Proof.
  apply (proj1 (handle_leaves_others_alone TwoSessions.apart Scenario.alice
                  (TextOperationEvent Scenario.insert_x) 30)).
  vm_compute. discriminate.
Defined.

(** ** Cursor updates, joins and leaves in detail *)

(** X8. A cursor-update of a participant of its bound session overwrites
    that participant's cursor with (line, column) and its selection with
    the one sent (none when none is sent), and nothing else: the entry
    keeps its identity, connection and join time, the participants keep
    their order, every other participant is as before, and the content,
    the version and the activity time of the session do not move. *)
Theorem cursor_update_only_moves_the_cursor (w : World) (sock : Socket)
    (data : CursorData) (now : Z) (sid : string) (s : CollaborationSession)
    (p : SessionParticipant) :
  bound_session w sock = Some sid ->
  activeSessions w !! sid = Some s ->
  jsmap_get (userId sock) (participants s) = Some p ->
  exists s',
    activeSessions (fst (handle w sock (CursorUpdate data) now)) !! sid = Some s'
    /\ jsmap_get (userId sock) (participants s') = Some (with_cursor p data)
    /\ (forall u, u <> userId sock ->
          jsmap_get u (participants s') = jsmap_get u (participants s))
    /\ jsmap_keys (participants s') = jsmap_keys (participants s)
    /\ currentContent s' = currentContent s
    /\ version s' = version s
    /\ lastActivity s' = lastActivity s.
Proof.
  intros Hb Hs Hp. simpl. unfold cursor_update. rewrite Hb, Hs, Hp. simpl.
  eexists. split; [apply lookup_insert_eq |]. simpl.
  split; [apply jsmap_get_set_eq |].
  split; [intros u Hu; apply jsmap_get_set_ne; exact Hu |].
  split; [apply jsmap_keys_set_present; rewrite Hp; eauto |].
  repeat split.
Qed.

Lemma cursor_update_only_moves_the_cursor_witness :
  (activeSessions
     (fst (handle Scenario.two_joined Scenario.alice
             (CursorUpdate Interleaved.move) 30)) !! "S1"
   ≫= λ s, jsmap_get "alice-socket-0001" (participants s)
   ≫= cursor)
  = Some {| line := 7; column := 2 |}.
Proof.
  destruct (cursor_update_only_moves_the_cursor Scenario.two_joined
              Scenario.alice Interleaved.move 30 "S1" Scenario.session_S1
              (joining_participant Scenario.alice 10))
    as (s' & Hs' & Hget & _).
  - vm_compute. reflexivity.
  - vm_compute. reflexivity.
  - vm_compute. reflexivity.
  - rewrite Hs'. simpl. change (userId Scenario.alice)
      with "alice-socket-0001" in Hget. rewrite Hget. reflexivity.
Defined.

(** X9. Only an edit counts as activity.  A join, a cursor update, a leave
    or a disconnect leaves the content, the version and the last-activity
    time of every session that is resident before and after it exactly
    as they were. *)
Theorem only_edits_refresh_activity (w : World) (sock : Socket)
    (ev : ClientEvent) (now : Z) (sid : string) (s s' : CollaborationSession) :
  is_text_operation ev = false ->
  activeSessions w !! sid = Some s ->
  activeSessions (fst (handle w sock ev now)) !! sid = Some s' ->
  currentContent s' = currentContent s
  /\ version s' = version s
  /\ lastActivity s' = lastActivity s.
Proof.
  intros Hev Hs Hs'.
  assert (Hleave : forall w0, activeSessions w0 = activeSessions w ->
            activeSessions (fst (handleLeaveSession w0 sock)) !! sid = Some s' ->
            currentContent s' = currentContent s
            /\ version s' = version s
            /\ lastActivity s' = lastActivity s).
  { intros w0 Hw0. unfold handleLeaveSession.
    destruct (bound_session w0 sock) as [sid0|];
      [| simpl; rewrite Hw0, Hs; intros [= <-]; auto].
    destruct (truthy (userId sock));
      [| simpl; rewrite Hw0, Hs; intros [= <-]; auto].
    rewrite Hw0.
    destruct (activeSessions w !! sid0) as [s0|] eqn:Hs0;
      [| simpl; rewrite Hw0, Hs; intros [= <-]; auto].
    simpl.
    destruct (jsmap_size (jsmap_delete (userId sock) (participants s0)) =? 0).
    - rewrite lookup_delete. destruct (decide (sid0 = sid)); [discriminate |].
      rewrite Hs. intros [= <-]. auto.
    - rewrite lookup_insert. destruct (decide (sid0 = sid)) as [->|].
      + intros [= <-]. simpl. rewrite Hs in Hs0. injection Hs0 as ->. auto.
      + rewrite Hs. intros [= <-]. auto. }
  destruct ev as [sid0|operation|data| | |]; try discriminate Hev; simpl in Hs'.
  - unfold join_session, join_session_enter, join_session_resume in Hs'.
    simpl in Hs'.
    rewrite lookup_insert in Hs'. destruct (decide (sid0 = sid)) as [->|].
    + rewrite Hs in Hs'. injection Hs' as <-. simpl. auto.
    + rewrite Hs in Hs'. injection Hs' as <-. auto.
  - unfold cursor_update in Hs'.
    destruct (bound_session w sock) as [sid0|];
      [| simpl in Hs'; rewrite Hs in Hs'; injection Hs' as <-; auto].
    destruct (activeSessions w !! sid0) as [s0|] eqn:Hs0;
      [| simpl in Hs'; rewrite Hs in Hs'; injection Hs' as <-; auto].
    simpl in Hs'.
    destruct (jsmap_get (userId sock) (participants s0));
      [| rewrite Hs in Hs'; injection Hs' as <-; auto].
    simpl in Hs'. rewrite lookup_insert in Hs'.
    destruct (decide (sid0 = sid)) as [->|].
    + injection Hs' as <-. simpl. rewrite Hs in Hs0. injection Hs0 as ->. auto.
    + rewrite Hs in Hs'. injection Hs' as <-. auto.
  - apply (Hleave w); [reflexivity | exact Hs'].
  - apply (Hleave (socket_leave_all w sock)); [reflexivity | exact Hs'].
  - rewrite Hs in Hs'. injection Hs' as <-. auto.
Qed.

Lemma only_edits_refresh_activity_witness :
  lastActivity <$>
    (activeSessions
       (fst (handle Scenario.two_joined Scenario.alice
               (CursorUpdate Interleaved.move) 30)) !! "S1")
  = Some 10.
Proof.
  destruct (activeSessions
              (fst (handle Scenario.two_joined Scenario.alice
                      (CursorUpdate Interleaved.move) 30)) !! "S1")
    as [s'|] eqn:Hs'; [| vm_compute in Hs'; discriminate Hs'].
  destruct (only_edits_refresh_activity Scenario.two_joined Scenario.alice
              (CursorUpdate Interleaved.move) 30 "S1" Scenario.session_S1 s')
    as (_ & _ & Ha).
  - reflexivity.
  - vm_compute. reflexivity.
  - exact Hs'.
  - simpl. rewrite Ha. reflexivity.
Defined.

(** X10. When no other frame runs during the join handler's [await],
    joining a resident session does not touch its content or its
    version; the joiner is told the current content and version and the
    participants with its own fresh entry (no cursor, no selection, join
    time now) among them.  Afterwards the connection is bound to the
    session and in its room.  A join of an identity that is already a
    participant replaces the entry in place, so the number of
    participants stays; otherwise it grows by one. *)
Theorem join_of_resident_session (w : World) (sock : Socket) (sid : string)
    (now : Z) (s : CollaborationSession) :
  activeSessions w !! sid = Some s ->
  let ps := jsmap_set (userId sock) (joining_participant sock now)
              (participants s) in
  let w' := fst (join_session w sock sid now) in
  activeSessions w' !! sid = Some (with_participants s ps)
  /\ head (snd (join_session w sock sid now))
     = Some (socket_emit w' sock
               (SessionJoined sid (currentContent s) (version s)
                  (map participant_view (jsmap_values ps))))
  /\ jsmap_get (userId sock) ps = Some (joining_participant sock now)
  /\ jsmap_size ps
     = jsmap_size (participants s)
       + match jsmap_get (userId sock) (participants s) with
         | Some _ => 0
         | None => 1
         end
  /\ data_sessionId w' !! sock_id sock = Some sid
  /\ sock_id sock ∈ room_members w' sid.
Proof.
  intros Hs ps w'. subst w'.
  unfold join_session, join_session_enter, join_session_resume.
  rewrite Hs. simpl.
  split; [apply lookup_insert_eq |]. split; [reflexivity |].
  split; [apply jsmap_get_set_eq |]. split; [| split].
  - unfold jsmap_size.
    destruct (jsmap_get (userId sock) (participants s)) as [p|] eqn:Hp.
    + assert (Hk : length (jsmap_keys ps) = length (jsmap_keys (participants s))).
      { unfold ps. rewrite jsmap_keys_set_present; [reflexivity |].
        rewrite Hp. eauto. }
      unfold jsmap_keys in Hk. rewrite !length_map in Hk. lia.
    + unfold ps. rewrite (jsmap_set_fresh _ _ _ Hp), length_app. simpl. lia.
  - apply lookup_insert_eq.
  - unfold room_members. simpl. apply members_after_join. tauto.
Qed.

Lemma join_of_resident_session_witness :
  jsmap_size
    (jsmap_set (userId Scenario.alice) (joining_participant Scenario.alice 30)
       (participants Scenario.session_S1))
  = 2.
Proof.
  destruct (join_of_resident_session Scenario.two_joined Scenario.alice "S1" 30
              Scenario.session_S1) as (_ & _ & _ & Hsize & _).
  - vm_compute. reflexivity.
  - rewrite Hsize. vm_compute. reflexivity.
Defined.

(** ** Leaving, and what a leave does not reach *)




(** X13. Join and leave are inverse on a session that was not there.  When
    a connection joins a sessionId that is not resident, no other frame
    runs during the join handler's [await], and the connection then leaves
    or disconnects, the store of sessions is exactly what it was before the
    join, the connection is unbound and it is out of the room. *)
Theorem join_then_leave_restores (w : World) (sock : Socket) (sid : string)
    (now now' : Z) (ev : ClientEvent) :
  activeSessions w !! sid = None ->
  truthy sid = true ->
  truthy (userId sock) = true ->
  is_leave ev = true ->
  let w2 := fst (handle (fst (join_session w sock sid now)) sock ev now') in
  activeSessions w2 = activeSessions w
  /\ data_sessionId w2 !! sock_id sock = None
  /\ sock_id sock ∉ room_members w2 sid.
Proof.
  intros Hs Hsid Hu Hev.
  assert (Hleave : forall w1,
    data_sessionId w1 !! sock_id sock = Some sid ->
    activeSessions w1
    = <[sid := with_participants (new_session sid now)
                 [(userId sock, joining_participant sock now)]]>
        (activeSessions w) ->
    activeSessions (fst (handleLeaveSession w1 sock)) = activeSessions w
    /\ data_sessionId (fst (handleLeaveSession w1 sock)) !! sock_id sock = None
    /\ sock_id sock ∉ room_members (fst (handleLeaveSession w1 sock)) sid).
  { intros w1 Hd Ha. unfold handleLeaveSession, bound_session.
    rewrite Hd, Hsid, Hu, Ha, lookup_insert_eq. simpl.
    destruct (decide (userId sock = userId sock)); [| contradiction]. simpl.
    split; [apply delete_insert_id, Hs |].
    split; [apply lookup_delete_eq |].
    unfold room_members. simpl. rewrite members_after_leave. tauto. }
  destruct ev; try discriminate Hev; simpl.
  - apply Hleave.
    + unfold join_session, join_session_enter, join_session_resume. simpl.
      apply lookup_insert_eq.
    + unfold join_session, join_session_enter, join_session_resume.
      rewrite Hs. reflexivity.
  - unfold disconnect. apply Hleave.
    + unfold join_session, join_session_enter, join_session_resume. simpl.
      apply lookup_insert_eq.
    + unfold join_session, join_session_enter, join_session_resume.
      rewrite Hs. reflexivity.
Qed.

Lemma join_then_leave_restores_witness :
  activeSessions
    (fst (handle (fst (join_session Scenario.two_joined Scenario.alice "S9" 30))
            Scenario.alice Disconnect 40))
  = activeSessions Scenario.two_joined.
Proof.
  apply (join_then_leave_restores Scenario.two_joined Scenario.alice "S9"
           30 40 Disconnect); reflexivity.
Defined.

(** X14. Joining a second session is not leaving the first.  A connection
    that joins session B while it is a participant of another session A,
    with no other frame running during the join handler's [await], stays
    in A's participant map; its later leave-session or disconnect
    is about B only, so A is exactly as before, this participant
    included, and after a leave-session the connection is still in A's
    room. *)
Theorem second_join_keeps_first_membership (w : World) (sock : Socket)
    (A B : string) (now now' : Z) (ev : ClientEvent) :
  A <> B ->
  is_leave ev = true ->
  let w1 := fst (join_session w sock B now) in
  let w2 := fst (handle w1 sock ev now') in
  activeSessions w1 !! A = activeSessions w !! A
  /\ activeSessions w2 !! A = activeSessions w !! A
  /\ (sock_id sock ∈ room_members w A -> sock_id sock ∈ room_members w1 A)
  /\ (ev = LeaveSession -> sock_id sock ∈ room_members w A ->
      sock_id sock ∈ room_members w2 A).
Proof.
  intros HAB Hev w1 w2.
  assert (H1 : activeSessions w1 !! A = activeSessions w !! A).
  { unfold w1, join_session, join_session_enter, join_session_resume. simpl.
    apply lookup_insert_ne. congruence. }
  assert (Hb : bound_session w1 sock <> Some A).
  { unfold bound_session, w1, join_session, join_session_enter,
      join_session_resume. simpl. rewrite lookup_insert_eq.
    destruct (truthy B); congruence. }
  assert (Hroom : sock_id sock ∈ room_members w A ->
                  sock_id sock ∈ room_members w1 A).
  { intros Hin. unfold w1, join_session, join_session_enter,
      join_session_resume, room_members. simpl.
    apply members_after_join. right. exact Hin. }
  split; [exact H1 |]. split; [| split; [exact Hroom |]].
  - rewrite <- H1. unfold w2. destruct ev; try discriminate Hev; simpl.
    + apply leave_keeps_other_sessions. exact Hb.
    + unfold disconnect.
      apply (leave_keeps_other_sessions (socket_leave_all w1 sock)). exact Hb.
  - intros -> Hin. apply Hroom in Hin. unfold w2. simpl.
    unfold handleLeaveSession.
    destruct (bound_session w1 sock) as [sid|] eqn:E; [| exact Hin].
    destruct (truthy (userId sock)); [| exact Hin].
    destruct (activeSessions w1 !! sid); [| exact Hin].
    unfold room_members at 1. simpl. apply members_after_leave.
    split; [exact Hin |]. intros [Heq _]. congruence.
Qed.

Lemma second_join_keeps_first_membership_witness :
  (jsmap_keys <$> (participants <$>
     activeSessions
       (fst (handle (fst (join_session Scenario.two_joined Scenario.alice
                            "S2" 30))
               Scenario.alice LeaveSession 40)) !! "S1"))
  = Some ["alice-socket-0001"; "bob-socket-0002"].
Proof.
  destruct (second_join_keeps_first_membership Scenario.two_joined
              Scenario.alice "S1" "S2" 30 40 LeaveSession)
    as (_ & H2 & _).
  - discriminate.
  - reflexivity.
  - rewrite H2. vm_compute. reflexivity.
Defined.

(** ** Invariants of the states reached from the empty store *)

Section StoreInvariants.

Implicit Types (w : World) (sock : Socket) (sid : string)
  (s : CollaborationSession) (ps : JsMap.t SessionParticipant).

Lemma jsmap_get_elem {V} k (v : V) (m : JsMap.t V) :
  jsmap_get k m = Some v -> (k, v) ∈ m.
Proof.
  induction m as [|[k' v'] m IH]; simpl; [discriminate |].
  destruct (decide (k = k')) as [->|Hne].
  - intros [= ->]. left.
  - intros H. right. apply IH, H.
Qed.

Lemma jsmap_set_Forall {V} (P : string * V -> Prop) k v (m : JsMap.t V) :
  Forall P m -> P (k, v) -> Forall P (jsmap_set k v m).
Proof.
  intros Hm Hkv. induction Hm as [|[k' v'] m Hx Hm IH]; simpl.
  - repeat constructor. exact Hkv.
  - destruct (decide (k = k')) as [->|Hne]; constructor; auto.
Qed.

Lemma jsmap_delete_Forall {V} (P : string * V -> Prop) k (m : JsMap.t V) :
  Forall P m -> Forall P (jsmap_delete k m).
Proof.
  intros Hm. induction Hm as [|[k' v'] m Hx Hm IH]; simpl; [constructor |].
  destruct (decide (k = k')); [exact IH | constructor; auto].
Qed.

Lemma well_keyed_set ps p :
  well_keyed ps -> well_keyed (jsmap_set (p_userId p) p ps).
Proof.
  intros [Hnd Hk]. split.
  - destruct (jsmap_get (p_userId p) ps) as [q|] eqn:Hget.
    + rewrite jsmap_keys_set_present; [exact Hnd | rewrite Hget; eauto].
    + rewrite (jsmap_keys_set_absent _ _ _ Hget).
      apply NoDup_app. split; [exact Hnd |]. split.
      * intros k Hin Hk'. apply list_elem_of_singleton in Hk' as ->.
        apply jsmap_get_None_keys in Hget. contradiction.
      * apply NoDup_singleton.
  - apply jsmap_set_Forall; [exact Hk | reflexivity].
Qed.

Lemma well_keyed_delete ps k : well_keyed ps -> well_keyed (jsmap_delete k ps).
Proof.
  intros [Hnd Hk]. split.
  - rewrite jsmap_keys_delete. apply NoDup_filter, Hnd.
  - apply jsmap_delete_Forall, Hk.
Qed.

Lemma well_keyed_get ps k p :
  well_keyed ps -> jsmap_get k ps = Some p -> p_userId p = k.
Proof.
  intros [_ Hk] Hget. apply jsmap_get_elem in Hget.
  rewrite Forall_forall in Hk. exact (Hk (k, p) Hget).
Qed.

Lemma registry_consistent_leave w sock :
  registry_consistent w -> registry_consistent (fst (handleLeaveSession w sock)).
Proof.
  intros Hinv. unfold handleLeaveSession.
  destruct (bound_session w sock) as [sid|]; [| exact Hinv].
  destruct (truthy (userId sock)); [| exact Hinv].
  destruct (activeSessions w !! sid) as [s|] eqn:Hs; [| exact Hinv].
  unfold registry_consistent. simpl.
  destruct (jsmap_size (jsmap_delete (userId sock) (participants s)) =? 0).
  - apply map_Forall_delete. exact Hinv.
  - apply map_Forall_insert_2; [| exact Hinv].
    destruct (Hinv sid s Hs) as (Hid & Hv & Hk). simpl.
    split; [exact Hid |]. split; [exact Hv |]. apply well_keyed_delete, Hk.
Qed.

Lemma registry_consistent_step w sock ev now :
  registry_consistent w -> registry_consistent (fst (handle w sock ev now)).
Proof.
  intros Hinv. destruct ev as [sid|operation|data| | |]; simpl.
  - unfold join_session, join_session_enter, join_session_resume. simpl.
    unfold registry_consistent. simpl.
    apply map_Forall_insert_2; [| exact Hinv]. simpl.
    change (userId sock) with (p_userId (joining_participant sock now)).
    destruct (activeSessions w !! sid) as [s|] eqn:Hs.
    + destruct (Hinv sid s Hs) as (Hid & Hv & Hk).
      split; [exact Hid |]. split; [exact Hv |]. apply well_keyed_set, Hk.
    + simpl. split; [reflexivity |]. split; [lia |].
      split; [apply NoDup_singleton | repeat constructor].
  - unfold text_operation.
    destruct (bound_session w sock) as [sid|]; [| exact Hinv].
    destruct (activeSessions w !! sid) as [s|] eqn:Hs; [| exact Hinv].
    unfold registry_consistent. simpl.
    apply map_Forall_insert_2; [| exact Hinv].
    destruct (Hinv sid s Hs) as (Hid & Hv & Hk). simpl.
    split; [exact Hid |]. split; [lia | exact Hk].
  - unfold cursor_update.
    destruct (bound_session w sock) as [sid|]; [| exact Hinv].
    destruct (activeSessions w !! sid) as [s|] eqn:Hs; [| exact Hinv].
    simpl.
    destruct (jsmap_get (userId sock) (participants s)) as [p|] eqn:Hp;
      [| exact Hinv].
    unfold registry_consistent. simpl.
    apply map_Forall_insert_2; [| exact Hinv].
    destruct (Hinv sid s Hs) as (Hid & Hv & Hk). simpl.
    split; [exact Hid |]. split; [exact Hv |].
    pose proof (well_keyed_get _ _ _ Hk Hp) as Hu.
    rewrite <- Hu at 1.
    apply (well_keyed_set (participants s)
             {| p_userId := p_userId p; p_username := p_username p;
                socketId := socketId p; joinedAt := joinedAt p;
                cursor := Some {| line := cd_line data;
                                  column := cd_column data |};
                selection := cd_selection data |}).
    exact Hk.
  - apply registry_consistent_leave. exact Hinv.
  - unfold disconnect. apply registry_consistent_leave. exact Hinv.
  - exact Hinv.
Qed.

Lemma registry_consistent_run frames : forall w,
  registry_consistent w -> registry_consistent (world_after w frames).
Proof.
  induction frames as [|f frames IH]; intros w Hinv; [exact Hinv |].
  rewrite world_after_cons. apply IH, registry_consistent_step, Hinv.
Qed.

Lemma bindings_valid_leave w w0 sock :
  self_identified sock ->
  bindings_valid w ->
  activeSessions w0 = activeSessions w ->
  data_sessionId w0 = data_sessionId w ->
  bindings_valid (fst (handleLeaveSession w0 sock)).
Proof.
  intros Hself Hinv Ha Hd.
  assert (Hinv0 : bindings_valid w0).
  { intros id sid. rewrite Hd, Ha. apply Hinv. }
  unfold handleLeaveSession.
  destruct (bound_session w0 sock) as [sid0|]; [| exact Hinv0].
  destruct (truthy (userId sock)); [| exact Hinv0].
  destruct (activeSessions w0 !! sid0) as [s0|] eqn:Hs0; [| exact Hinv0].
  intros id sid. simpl. rewrite lookup_delete.
  destruct (decide (sock_id sock = id)) as [Heq|Hne]; [discriminate |].
  intros Hid. destruct (Hinv0 id sid Hid) as (s & Hs & Hin).
  assert (Hkeep : forall ps, is_Some (jsmap_get id ps) ->
                    is_Some (jsmap_get id (jsmap_delete (userId sock) ps))).
  { intros ps H. rewrite jsmap_get_delete_ne; [exact H |].
    rewrite Hself. congruence. }
  destruct (decide (sid0 = sid)) as [->|Hsid].
  - rewrite Hs0 in Hs. injection Hs as <-.
    destruct (jsmap_size (jsmap_delete (userId sock) (participants s0)) =? 0)
      eqn:E.
    + apply Z.eqb_eq, jsmap_size_zero in E.
      destruct (Hkeep _ Hin) as [x Hx]. rewrite E in Hx. discriminate.
    + exists (with_participants s0
                (jsmap_delete (userId sock) (participants s0))).
      split; [apply lookup_insert_eq | apply Hkeep, Hin].
  - exists s. split; [| exact Hin].
    destruct (jsmap_size (jsmap_delete (userId sock) (participants s0)) =? 0).
    + rewrite lookup_delete_ne by exact Hsid. exact Hs.
    + rewrite lookup_insert_ne by exact Hsid. exact Hs.
Qed.

Lemma bindings_valid_step w sock ev now :
  self_identified sock ->
  bindings_valid w -> bindings_valid (fst (handle w sock ev now)).
Proof.
  intros Hself Hinv. destruct ev as [sid0|operation|data| | |]; simpl.
  - unfold join_session, join_session_enter, join_session_resume. simpl.
    intros id sid. simpl. rewrite lookup_insert.
    destruct (decide (sock_id sock = id)) as [<-|Hne].
    + intros [= <-]. eexists. split; [apply lookup_insert_eq |]. simpl.
      rewrite <- Hself, jsmap_get_set_eq. eauto.
    + intros Hid. destruct (Hinv id sid Hid) as (s & Hs & Hin).
      destruct (decide (sid0 = sid)) as [->|Hsid].
      * rewrite Hs. eexists. split; [apply lookup_insert_eq |]. simpl.
        rewrite jsmap_get_set_ne; [exact Hin |]. rewrite Hself. congruence.
      * exists s. split; [| exact Hin]. now rewrite lookup_insert_ne.
  - unfold text_operation.
    destruct (bound_session w sock) as [sid0|]; [| exact Hinv].
    destruct (activeSessions w !! sid0) as [s0|] eqn:Hs0; [| exact Hinv].
    intros id sid Hid. simpl in *.
    destruct (Hinv id sid Hid) as (s & Hs & Hin).
    destruct (decide (sid0 = sid)) as [->|Hsid].
    + rewrite Hs0 in Hs. injection Hs as <-.
      eexists. split; [apply lookup_insert_eq | exact Hin].
    + exists s. split; [| exact Hin]. now rewrite lookup_insert_ne.
  - unfold cursor_update.
    destruct (bound_session w sock) as [sid0|]; [| exact Hinv].
    destruct (activeSessions w !! sid0) as [s0|] eqn:Hs0; [| exact Hinv].
    simpl.
    destruct (jsmap_get (userId sock) (participants s0)) as [p|] eqn:Hp;
      [| exact Hinv].
    intros id sid Hid. simpl in *.
    destruct (Hinv id sid Hid) as (s & Hs & Hin).
    destruct (decide (sid0 = sid)) as [->|Hsid].
    + rewrite Hs0 in Hs. injection Hs as <-.
      eexists. split; [apply lookup_insert_eq |]. simpl.
      destruct (decide (id = userId sock)) as [->|Hu].
      * rewrite jsmap_get_set_eq. eauto.
      * rewrite jsmap_get_set_ne; [exact Hin | exact Hu].
    + exists s. split; [| exact Hin]. now rewrite lookup_insert_ne.
  - apply (bindings_valid_leave w w sock); auto.
  - unfold disconnect.
    apply (bindings_valid_leave w (socket_leave_all w sock) sock); auto.
  - exact Hinv.
Qed.

Lemma bindings_valid_run frames : forall w,
  Forall (λ f, self_identified (f_sock f)) frames ->
  bindings_valid w -> bindings_valid (world_after w frames).
Proof.
  induction frames as [|f frames IH]; intros w Hall Hinv; [exact Hinv |].
  inversion Hall as [|? ? Hf Hrest]; subst.
  rewrite world_after_cons. apply IH; [exact Hrest |].
  apply bindings_valid_step; assumption.
Qed.

End StoreInvariants.

Lemma keyed_views ps :
  well_keyed ps ->
  map pv_userId (map participant_view (jsmap_values ps)) = jsmap_keys ps.
Proof.
  intros [_ Hk]. unfold jsmap_values, jsmap_keys. rewrite !map_map. simpl.
  induction Hk as [|[k p] m Hx Hm IH]; [reflexivity |].
  simpl in *. now rewrite Hx, IH.
Qed.

Lemma payloads_list_identities_once frames : forall w,
  registry_consistent w ->
  Forall (λ members, NoDup (map pv_userId members))
    (joined_payloads (outbox w frames)).
Proof.
  induction frames as [|f frames IH]; intros w Hinv; [constructor |].
  pose proof (registry_consistent_step w (f_sock f) (f_event f) (f_now f) Hinv)
    as Hinv'.
  rewrite outbox_cons, joined_payloads_app. apply Forall_app.
  split; [| exact (IH _ Hinv')].
  destruct f as [sock ev now]. cbn [f_sock f_event f_now] in *.
  destruct ev as [sid|operation|data| | |];
    try (rewrite no_payload_without_join by (intros ?; discriminate);
         constructor).
  change (handle w sock (JoinSession sid) now)
    with (join_session w sock sid now) in *.
  destruct (join_payload w sock sid now) as (s' & Hs' & Hout).
  rewrite Hout. repeat constructor.
  destruct (Hinv' sid s' Hs') as (_ & _ & Hk).
  rewrite (keyed_views _ Hk). exact (proj1 Hk).
Qed.

(** X15. However often identities join, re-join and leave, every
    [session-joined] message sent in a run from the empty store lists each
    identity at most once. *)
Theorem joined_payload_lists_each_identity_once (frames : list Frame) :
  Forall (λ members, NoDup (map pv_userId members))
    (joined_payloads (outbox initial_world frames)).
Proof.
  apply payloads_list_identities_once. apply map_Forall_empty.
Qed.

(** X16. In every state reached from the empty store, a resident session
    is stored under its own [sessionId] and its version is at least 1. *)
Theorem resident_sessions_are_consistent (frames : list Frame) (sid : string)
    (s : CollaborationSession) :
  activeSessions (world_after initial_world frames) !! sid = Some s ->
  sessionId s = sid /\ 1 <= version s.
Proof.
  intros Hs.
  assert (Hinv : registry_consistent (world_after initial_world frames)).
  { apply registry_consistent_run, map_Forall_empty. }
  destruct (Hinv sid s Hs) as (Hid & Hv & _). split; assumption.
Qed.

Lemma resident_sessions_are_consistent_witness :
  sessionId Scenario.session_S1 = "S1" /\ 1 <= version Scenario.session_S1.
Proof.
  apply (resident_sessions_are_consistent
           [ {| f_sock := Scenario.alice; f_event := JoinSession "S1";
                f_now := 10 |};
             {| f_sock := Scenario.bob; f_event := JoinSession "S1";
                f_now := 20 |} ] "S1" Scenario.session_S1).
  vm_compute. reflexivity.
Defined.

(** X17. When every connection uses its socket id as identity, as the
    connection setup does, and handlers are not interrupted, then in
    every state reached from the empty store a connection that is bound
    to a session finds that session resident and itself among its
    participants.  So its edit is always applied and acknowledged, never
    answered with "Session not found". *)
Theorem bound_connection_is_a_participant (frames : list Frame)
    (sock : Socket) (sid : string) :
  Forall (λ f, self_identified (f_sock f)) frames ->
  self_identified sock ->
  bound_session (world_after initial_world frames) sock = Some sid ->
  (exists s,
     activeSessions (world_after initial_world frames) !! sid = Some s
     /\ is_Some (jsmap_get (userId sock) (participants s)))
  /\ forall operation now,
       acknowledged_ids
         (snd (handle (world_after initial_world frames) sock
                 (TextOperationEvent operation) now))
       = [now].
Proof.
  intros Hall Hself Hb.
  assert (Hinv : bindings_valid (world_after initial_world frames)).
  { apply bindings_valid_run; [exact Hall |].
    intros id sid0 H. simpl in H. rewrite lookup_empty in H. discriminate. }
  assert (Hd : data_sessionId (world_after initial_world frames)
                 !! sock_id sock = Some sid).
  { unfold bound_session in Hb.
    destruct (data_sessionId (world_after initial_world frames)
                !! sock_id sock) as [sid0|]; [| discriminate].
    destruct (truthy sid0); [| discriminate]. congruence. }
  destruct (Hinv _ _ Hd) as (s & Hs & Hin).
  split.
  - exists s. split; [exact Hs |]. rewrite Hself. exact Hin.
  - intros operation now. simpl.
    rewrite (text_operation_applied _ _ _ _ _ _ Hb Hs). reflexivity.
Qed.

Lemma bound_connection_is_a_participant_witness :
  acknowledged_ids
    (snd (handle
            (world_after initial_world
               [ {| f_sock := Scenario.alice; f_event := JoinSession "S1";
                    f_now := 10 |} ])
            Scenario.alice (TextOperationEvent Scenario.insert_x) 30))
  = [30].
Proof.
  apply (bound_connection_is_a_participant
           [ {| f_sock := Scenario.alice; f_event := JoinSession "S1";
                f_now := 10 |} ] Scenario.alice "S1").
  - repeat constructor.
  - reflexivity.
  - vm_compute. reflexivity.
Defined.

(** ** Inspection *)

(** X18. [getSessionStatus] answers null exactly for the ids that are not
    resident.  For a state reached from the empty store its answer names
    the id that was asked for, counts the very participants it lists, at
    least one, each identity once, and reports a version of at least 1. *)
Theorem session_status_of_reached_state (frames : list Frame) (sid : string) :
  let w := world_after initial_world frames in
  (getSessionStatus w sid = None <-> activeSessions w !! sid = None)
  /\ forall st, getSessionStatus w sid = Some st ->
       st_sessionId st = sid
       /\ st_participantCount st = Z.of_nat (length (st_participants st))
       /\ 1 <= st_participantCount st
       /\ NoDup (map sp_userId (st_participants st))
       /\ 1 <= st_version st.
Proof.
  intros w. unfold getSessionStatus. split.
  - destruct (activeSessions w !! sid); split; congruence.
  - intros st.
    destruct (activeSessions w !! sid) as [s|] eqn:Hs; [| discriminate].
    intros [= <-]. simpl.
    assert (Hinv : registry_consistent w).
    { apply registry_consistent_run, map_Forall_empty. }
    assert (Hne : no_empty_session w).
    { apply no_empty_session_run, no_empty_session_initial. }
    destruct (Hinv sid s Hs) as (Hid & Hv & Hk).
    pose proof (Hne sid s Hs) as Hps. simpl in Hps.
    split; [exact Hid |].
    split; [unfold jsmap_size, jsmap_values; now rewrite !length_map |].
    split.
    + unfold jsmap_size. destruct (participants s); [contradiction |].
      simpl. lia.
    + split; [| exact Hv].
      replace (map sp_userId
                 (map status_participant (jsmap_values (participants s))))
        with (jsmap_keys (participants s)); [exact (proj1 Hk) |].
      rewrite <- (keyed_views _ Hk), !map_map. reflexivity.
Qed.

Lemma session_status_of_reached_state_witness :
  st_participantCount <$>
    getSessionStatus
      (world_after initial_world
         [ {| f_sock := Scenario.alice; f_event := JoinSession "S1";
              f_now := 10 |};
           {| f_sock := Scenario.bob; f_event := JoinSession "S1";
              f_now := 20 |} ]) "S1"
  = Some 2.
Proof.
  destruct (getSessionStatus
              (world_after initial_world
                 [ {| f_sock := Scenario.alice; f_event := JoinSession "S1";
                      f_now := 10 |};
                   {| f_sock := Scenario.bob; f_event := JoinSession "S1";
                      f_now := 20 |} ]) "S1") as [st|] eqn:Hst;
    [| vm_compute in Hst; discriminate Hst].
  destruct (proj2 (session_status_of_reached_state
              [ {| f_sock := Scenario.alice; f_event := JoinSession "S1";
                   f_now := 10 |};
                {| f_sock := Scenario.bob; f_event := JoinSession "S1";
                   f_now := 20 |} ] "S1") st Hst) as (_ & Hcount & _).
  simpl. rewrite Hcount.
  vm_compute in Hst. injection Hst as <-. reflexivity.
Defined.

(** X19. For a state reached from the empty store, [getActiveSessions]
    has one entry per resident session: an id is listed exactly when its
    session is resident, no id is listed twice, and every entry counts at
    least one participant. *)
Theorem active_sessions_of_reached_state (frames : list Frame) :
  let w := world_after initial_world frames in
  (forall sid, sid ∈ map ss_sessionId (getActiveSessions w)
               <-> is_Some (activeSessions w !! sid))
  /\ NoDup (map ss_sessionId (getActiveSessions w))
  /\ length (getActiveSessions w) = size (activeSessions w)
  /\ Forall (λ e, 1 <= ss_participantCount e) (getActiveSessions w).
Proof.
  intros w.
  assert (Hinv : registry_consistent w).
  { apply registry_consistent_run, map_Forall_empty. }
  assert (Hne : no_empty_session w).
  { apply no_empty_session_run, no_empty_session_initial. }
  assert (Hids : map ss_sessionId (getActiveSessions w)
                 = map fst (map_to_list (activeSessions w))).
  { unfold getActiveSessions. rewrite map_map.
    apply map_ext_in. intros [sid s] Hin. simpl.
    apply list_elem_of_In, elem_of_map_to_list in Hin.
    exact (proj1 (Hinv sid s Hin)). }
  split; [| split; [| split]].
  - intros sid. rewrite Hids. split.
    + intros Hin. apply list_elem_of_fmap in Hin as ([sid' s] & -> & Hin).
      apply elem_of_map_to_list in Hin. simpl. eauto.
    + intros [s Hs]. apply list_elem_of_fmap. exists (sid, s).
      split; [reflexivity |]. apply elem_of_map_to_list. exact Hs.
  - rewrite Hids. apply NoDup_fst_map_to_list.
  - unfold getActiveSessions. rewrite length_map.
    apply length_map_to_list.
  - unfold getActiveSessions. apply Forall_forall. intros e He.
    apply list_elem_of_fmap in He as ([sid s] & -> & Hin).
    apply elem_of_map_to_list in Hin. simpl.
    pose proof (Hne sid s Hin) as Hps. simpl in Hps.
    unfold jsmap_size. destruct (participants s); [contradiction |].
    simpl. lia.
Qed.

(** * HTTP middleware *)

(** ** Rate-limit keys and retry hints *)

Lemma append_inj_l (p a b : string) : p +:+ a = p +:+ b -> a = b.
Proof.
  induction p as [|c p IH]; [trivial |].
  rewrite !append_cons. intros [= H]. apply IH, H.
Qed.

(** X20. Rate-limit buckets.  A request with a (non-empty) authenticated
    user id is keyed by that id alone, whatever its address; two such
    requests share a bucket exactly when they share the user id; and such
    a request never shares a bucket with a request that has no user. *)
Theorem client_id_separates_users (r1 r2 : Request) (u1 : string) :
  truthy_string (ru_id <$> req_user r1) = Some u1 ->
  getClientId r1 = "user:" +:+ u1
  /\ (forall u2, truthy_string (ru_id <$> req_user r2) = Some u2 ->
        (getClientId r1 = getClientId r2 <-> u1 = u2))
  /\ (truthy_string (ru_id <$> req_user r2) = None ->
        getClientId r1 <> getClientId r2).
Proof.
  intros H1.
  assert (Hc1 : getClientId r1 = "user:" +:+ u1).
  { unfold getClientId. now rewrite H1. }
  split; [exact Hc1 |]. split.
  - intros u2 H2. rewrite Hc1. unfold getClientId. rewrite H2. split.
    + apply append_inj_l.
    + now intros ->.
  - intros H2. rewrite Hc1. unfold getClientId. rewrite H2.
    change "user:" with (String "u" "ser:").
    change "ip:" with (String "i" "p:").
    rewrite !append_cons. intros [= Hbit].
Qed.

Lemma client_id_separates_users_witness :
  getClientId (user_request "u1" "ADMIN" (Some "10.0.0.1"))
  = getClientId (user_request "u1" "ADMIN" (Some "10.0.0.2")).
Proof.
  apply (proj1 (proj2 (client_id_separates_users
                         (user_request "u1" "ADMIN" (Some "10.0.0.1"))
                         (user_request "u1" "ADMIN" (Some "10.0.0.2")) "u1"
                         eq_refl)) "u1"); reflexivity.
Defined.

(** X21. The retry hint of a rejected request.  For a non-negative wait
    of [ms] milliseconds the advertised number of seconds is at least 1,
    it is [ms] rounded to whole seconds whenever that is not 0, so it
    overshoots the wait by at most 500 ms (or up to a second when the
    wait is under half a second) and falls short of it by at most
    499 ms. *)
Theorem retry_after_is_close_and_positive (ms : Z) :
  0 <= ms ->
  1 <= retry_after_seconds ms
  /\ ms - 499 <= 1000 * retry_after_seconds ms
  /\ 1000 * retry_after_seconds ms <= Z.max 1000 (ms + 500).
Proof.
  intros Hms. unfold retry_after_seconds.
  pose proof (Z.div_mod (ms + 500) 1000 ltac:(lia)) as Hdm.
  pose proof (Z.mod_pos_bound (ms + 500) 1000 ltac:(lia)) as Hmod.
  assert (Hq : 0 <= (ms + 500) / 1000) by (apply Z.div_pos; lia).
  destruct ((ms + 500) / 1000 =? 0) eqn:E; lia.
Qed.

Lemma retry_after_is_close_and_positive_witness :
  retry_after_seconds 1400 = 1 /\ 1 <= retry_after_seconds 200.
Proof.
  split; [reflexivity |].
  apply (retry_after_is_close_and_positive 200). lia.
Defined.

(** ** Tokens *)

Lemma slice_after_prefix (p t : string) :
  slice (p +:+ t) (text_length p) None = t.
Proof.
  unfold slice, text_length. rewrite length_append. unfold relative_index.
  destruct (Z.of_nat (String.length p) <? 0) eqn:E0;
    [apply Z.ltb_lt in E0; lia |].
  rewrite Z.min_l by lia.
  destruct (Z.of_nat (String.length p + String.length t)
            <=? Z.of_nat (String.length p)) eqn:E.
  - apply Z.leb_le in E.
    symmetry. apply text_length_zero. unfold text_length. lia.
  - rewrite Nat2Z.id, substring_past_prefix.
    replace (Z.to_nat (Z.of_nat (String.length p + String.length t)
                       - Z.of_nat (String.length p)))
      with (String.length t) by lia.
    apply substring_whole.
Qed.

Lemma extract_bearer_token (req : Request) (token : string) :
  req_authorization req = Some ("Bearer " +:+ token) ->
  extractToken req = Some token.
Proof.
  intros H. unfold extractToken. rewrite H.
  change ("Bearer " +:+ token) with (String "B" ("earer " +:+ token)) at 1 2.
  simpl truthy.
  assert (Hp : String.prefix "Bearer " ("Bearer " +:+ token) = true).
  { change ("Bearer " +:+ token)
      with (String "B" (String "e" (String "a" (String "r" (String "e"
             (String "r" (String " " token))))))).
    simpl. destruct token; reflexivity. }
  change (String "B" ("earer " +:+ token)) with ("Bearer " +:+ token).
  rewrite Hp. simpl andb. f_equal.
  apply (slice_after_prefix "Bearer " token).
Qed.

(** X22. [extractToken] gives back what follows "Bearer " in the
    Authorization header, whatever the cookies hold (an empty rest
    included: the result is then the empty string, not null).  Without an
    Authorization header the token cookie is used when it is not empty,
    and with neither there is no token. *)
Theorem bearer_token_is_recovered (req : Request) (token : string) :
  (req_authorization req = Some ("Bearer " +:+ token) ->
   extractToken req = Some token)
  /\ (req_authorization req = None ->
      extractToken req = truthy_string (req_cookie_token req))
  /\ (req_authorization req = None -> req_cookie_token req = None ->
      extractToken req = None).
Proof.
  split; [| split].
  - apply extract_bearer_token.
  - intros H. unfold extractToken. now rewrite H.
  - intros H Hc. unfold extractToken. now rewrite H, Hc.
Qed.

Lemma bearer_token_is_recovered_witness :
  extractToken (bearer_request "abc.def" (Some "cookie-token")) = Some "abc.def".
Proof.
  apply (proj1 (bearer_token_is_recovered
                  (bearer_request "abc.def" (Some "cookie-token")) "abc.def")).
  reflexivity.
Defined.

Section AuthenticationFacts.

Variable JWT_SECRET : option string.
Variable jwt_verify : string -> string -> JwtOutcome.
Variable findUnique : string -> QueryOutcome.

Local Abbreviation auth := (authMiddleware JWT_SECRET jwt_verify findUnique).
Local Abbreviation optional := (optionalAuthMiddleware JWT_SECRET jwt_verify findUnique).
Local Abbreviation socket_auth := (authenticateSocket JWT_SECRET jwt_verify findUnique).

(** X23. The optional middleware attaches a user to exactly the requests
    the mandatory one lets through, and the same user; on every request
    the mandatory one rejects it continues without a user. *)
Theorem optional_auth_agrees_with_auth (req : Request) :
  match auth req with
  | Ok u => optional req = Some u
  | Thrown _ => optional req = None
  end.
Proof.
  unfold authMiddleware, optionalAuthMiddleware.
  destruct (truthy_string (extractToken req)) as [token|]; [| reflexivity].
  destruct (verifyToken JWT_SECRET jwt_verify token) as [decoded|e];
    [| reflexivity].
  destruct (findUnique (jp_userId decoded)) as [row| |]; try reflexivity.
  destruct (row_isActive row); reflexivity.
Qed.

(** X24. What [authMiddleware] lets through and how it refuses.  A request
    passes only with a non-empty token that verifies, for a user the
    database has and marks active, and the identity attached is the
    database row's (id, email, username, role), not the claims of the
    token.  Every refusal carries status 401, except that without a
    configured JWT secret a request that brings a token is refused with
    500. *)
Theorem auth_passes_active_database_users (req : Request) :
  (forall u, auth req = Ok u ->
     exists token decoded row,
       truthy_string (extractToken req) = Some token
       /\ verifyToken JWT_SECRET jwt_verify token = Ok decoded
       /\ findUnique (jp_userId decoded) = RowFound row
       /\ row_isActive row = true
       /\ u = attach row)
  /\ (forall e, auth req = Thrown e ->
        err_status e = 401
        \/ (err_status e = 500
            /\ truthy_string JWT_SECRET = None
            /\ is_Some (truthy_string (extractToken req)))).
Proof.
  unfold authMiddleware. split.
  - intros u.
    destruct (truthy_string (extractToken req)) as [token|]; [| discriminate].
    destruct (verifyToken JWT_SECRET jwt_verify token) as [decoded|e] eqn:Hv;
      [| discriminate].
    destruct (findUnique (jp_userId decoded)) as [row| |] eqn:Hf;
      try discriminate.
    destruct (row_isActive row) eqn:Ha; [| discriminate].
    intros [= <-]. exists token, decoded, row. repeat split; assumption.
  - intros e.
    destruct (truthy_string (extractToken req)) as [token|];
      [| intros [= <-]; left; reflexivity].
    destruct (verifyToken JWT_SECRET jwt_verify token) as [decoded|e'] eqn:Hv.
    + destruct (findUnique (jp_userId decoded)) as [row| |];
        try (intros [= <-]; left; reflexivity).
      destruct (row_isActive row); [discriminate |].
      intros [= <-]. left. reflexivity.
    + intros [= <-]. unfold verifyToken in Hv.
      destruct (truthy_string JWT_SECRET) as [secret|].
      * left. destruct (jwt_verify token secret); try discriminate;
          injection Hv as <-; reflexivity.
      * right. injection Hv as <-. split; [reflexivity |]. split; eauto.
Qed.

(** X25. A socket authenticated with a non-empty token gets the identity
    an HTTP request carrying the same token as Bearer token gets, and is
    refused exactly when that request is refused. *)
Theorem socket_auth_agrees_with_bearer_auth (token : string)
    (cookie : option string) :
  truthy token = true ->
  match auth (bearer_request token cookie) with
  | Ok u => socket_auth token = Some (socket_identity u)
  | Thrown _ => socket_auth token = None
  end.
Proof.
  intros Ht. unfold authMiddleware, authenticateSocket.
  rewrite (extract_bearer_token (bearer_request token cookie) token)
    by reflexivity.
  unfold truthy_string. rewrite Ht.
  destruct (verifyToken JWT_SECRET jwt_verify token) as [decoded|e];
    [| reflexivity].
  destruct (findUnique (jp_userId decoded)) as [row| |]; try reflexivity.
  destruct (row_isActive row); reflexivity.
Qed.

End AuthenticationFacts.

Lemma auth_passes_active_database_users_witness :
  exists token decoded row,
    truthy_string (extractToken (bearer_request "good" None)) = Some token
    /\ verifyToken (Some "s3cret") AuthSample.verify token = Ok decoded
    /\ AuthSample.find (jp_userId decoded) = RowFound row
    /\ row_isActive row = true
    /\ attach AuthSample.ann_row = attach row.
Proof.
  apply (proj1 (auth_passes_active_database_users (Some "s3cret")
                  AuthSample.verify AuthSample.find
                  (bearer_request "good" None)) (attach AuthSample.ann_row)).
  vm_compute. reflexivity.
Defined.

Lemma socket_auth_agrees_with_bearer_auth_witness :
  authenticateSocket (Some "s3cret") AuthSample.verify AuthSample.find "good"
  = Some (socket_identity (attach AuthSample.ann_row)).
Proof.
  pose proof (socket_auth_agrees_with_bearer_auth (Some "s3cret")
                AuthSample.verify AuthSample.find "good" None eq_refl) as H.
  vm_compute in H. vm_compute. exact H.
Defined.

(** ** Authorization and reconnection *)

(** X26. [requireRole] lets a request through exactly when it carries a
    user whose role is one of the listed roles: with no role listed nobody
    passes, a longer list never shuts out a request a shorter one let
    through, a request without a user is refused with 401 and a user with
    another role with 403. *)
Theorem require_role_admits_listed_roles (roles : list string) (req : Request) :
  (requireRole roles req = Continue
   <-> exists u, req_user req = Some u /\ ru_role u ∈ roles)
  /\ requireRole [] req <> Continue
  /\ (forall roles', roles ⊆ roles' ->
        requireRole roles req = Continue -> requireRole roles' req = Continue)
  /\ (forall e, requireRole roles req = NextError e ->
        (err_status e = 401 /\ req_user req = None)
        \/ (err_status e = 403 /\ is_Some (req_user req))).
Proof.
  assert (Hiff : forall rs, requireRole rs req = Continue
                 <-> exists u, req_user req = Some u /\ ru_role u ∈ rs).
  { intros rs. unfold requireRole. destruct (req_user req) as [u|].
    - destruct (bool_decide (ru_role u ∈ rs)) eqn:E.
      + apply bool_decide_eq_true in E. split; [eauto | reflexivity].
      + apply bool_decide_eq_false in E. split; [discriminate |].
        intros (u' & [= <-] & Hin). contradiction.
    - split; [discriminate | intros (u' & Hu & _); discriminate]. }
  split; [apply Hiff |]. split; [| split].
  - rewrite Hiff. intros (u & _ & Hin). apply elem_of_nil in Hin. exact Hin.
  - intros roles' Hsub. rewrite !Hiff. intros (u & Hu & Hin).
    exists u. split; [exact Hu | apply Hsub, Hin].
  - intros e. unfold requireRole. destruct (req_user req) as [u|].
    + destruct (bool_decide (ru_role u ∈ roles)); [discriminate |].
      intros [= <-]. right. split; [reflexivity | eauto].
    + intros [= <-]. left. split; reflexivity.
Qed.

Lemma require_role_admits_listed_roles_witness :
  requireRole ["ADMIN"; "REVIEWER"] (user_request "u1" "ADMIN" None) = Continue.
Proof.
  apply (proj1 (proj2 (proj2 (require_role_admits_listed_roles ["ADMIN"]
                                (user_request "u1" "ADMIN" None))))
           ["ADMIN"; "REVIEWER"]).
  - intros x Hx. apply list_elem_of_singleton in Hx as ->. left.
  - reflexivity.
Defined.

(** X27. [requireOwnershipOrAdmin] lets a request through exactly when its
    user owns the resource or has the role "ADMIN"; so whoever passes
    [requireRole("ADMIN")] passes it for every resource, and a user always
    passes for a resource of its own. *)
Theorem ownership_or_admin (getUserId : Request -> string) (req : Request) :
  (requireOwnershipOrAdmin getUserId req = Continue
   <-> exists u, req_user req = Some u
         /\ (ru_id u = getUserId req \/ ru_role u = "ADMIN"))
  /\ (requireRole ["ADMIN"] req = Continue ->
      requireOwnershipOrAdmin getUserId req = Continue)
  /\ (forall u, req_user req = Some u ->
        requireOwnershipOrAdmin (λ _, ru_id u) req = Continue).
Proof.
  assert (Hiff : forall g, requireOwnershipOrAdmin g req = Continue
                 <-> exists u, req_user req = Some u
                       /\ (ru_id u = g req \/ ru_role u = "ADMIN")).
  { intros g. unfold requireOwnershipOrAdmin.
    destruct (req_user req) as [u|].
    - destruct (bool_decide (ru_id u = g req)) eqn:E1;
        destruct (bool_decide (ru_role u = "ADMIN")) eqn:E2; simpl;
        try apply bool_decide_eq_true in E1;
        try apply bool_decide_eq_true in E2;
        try apply bool_decide_eq_false in E1;
        try apply bool_decide_eq_false in E2.
      + split; [eauto | reflexivity].
      + split; [eauto | reflexivity].
      + split; [eauto | reflexivity].
      + split; [discriminate |].
        intros (u' & [= <-] & [H | H]); contradiction.
    - split; [discriminate | intros (u' & Hu & _); discriminate]. }
  split; [apply Hiff |]. split.
  - unfold requireRole. rewrite Hiff.
    destruct (req_user req) as [u|]; [| discriminate].
    destruct (bool_decide (ru_role u ∈ ["ADMIN"])) eqn:E; [| discriminate].
    apply bool_decide_eq_true, list_elem_of_singleton in E.
    intros _. exists u. split; [reflexivity | right; exact E].
  - intros u Hu. apply Hiff. exists u. split; [exact Hu | left; reflexivity].
Qed.

Lemma ownership_or_admin_witness :
  requireOwnershipOrAdmin (λ _, "someone-else")
    (user_request "u1" "ADMIN" None) = Continue.
Proof.
  apply (proj1 (proj2 (ownership_or_admin (λ _, "someone-else")
                         (user_request "u1" "ADMIN" None)))).
  reflexivity.
Defined.

(** X28. The Redis reconnect strategy retries as long as the retry count
    is at most 20 and gives up from 21 on.  While it retries, the delay is
    50 ms per retry counted, never above 1000 ms: the cap of 1000 is
    reached at the last retry only and never cuts a delay short. *)
Theorem reconnect_delay_is_linear (retries : Z) :
  (reconnectStrategy retries = None <-> 20 < retries)
  /\ (forall d, reconnectStrategy retries = Some d ->
        d = 50 * retries /\ d <= 1000 /\ (0 <= retries -> 0 <= d)).
Proof.
  unfold reconnectStrategy. destruct (20 <? retries) eqn:E.
  - apply Z.ltb_lt in E. split; [tauto | discriminate].
  - apply Z.ltb_ge in E. split; [split; [discriminate | lia] |].
    intros d [= <-]. lia.
Qed.

Lemma reconnect_delay_is_linear_witness :
  reconnectStrategy 20 = Some 1000 /\ reconnectStrategy 21 = None.
Proof.
  split; [reflexivity |].
  apply (proj1 (reconnect_delay_is_linear 21)). lia.
Defined.

(** * Who a message reaches *)

(** ** The room named by a socket id *)

Section OwnRooms.

Variable ids : list string.

Implicit Types (w : World) (sock : Socket) (open : gset string) (f : Frame).

Lemma members_leave_other w sock sid room :
  room <> sid ->
  default ∅ (socket_leave w sock sid !! room) = room_members w room.
Proof. intros H. unfold socket_leave, room_members. now rewrite lookup_insert_ne. Qed.

Lemma members_join_other w sock sid room :
  room <> sid ->
  default ∅ (socket_join w sock sid !! room) = room_members w room.
Proof. intros H. unfold socket_join, room_members. now rewrite lookup_insert_ne. Qed.

Lemma rooms_private_leave w open sock :
  sock_id sock ∈ ids ->
  rooms_private ids w open ->
  rooms_private ids (fst (handleLeaveSession w sock)) open.
Proof.
  intros Hx (H1 & H2 & H3). unfold handleLeaveSession.
  destruct (bound_session w sock) as [sid|] eqn:Hb; [| repeat split; assumption].
  destruct (truthy (userId sock)); [| repeat split; assumption].
  destruct (activeSessions w !! sid); [| repeat split; assumption].
  assert (Hsid : sid ∉ ids).
  { unfold bound_session in Hb.
    destruct (data_sessionId w !! sock_id sock) as [sid0|] eqn:Hd;
      [| discriminate].
    destruct (truthy sid0); [| discriminate].
    injection Hb as <-. exact (H1 _ _ Hd). }
  split; [| split]; simpl.
  - intros id sid0. rewrite lookup_delete.
    destruct (decide (sock_id sock = id)); [discriminate | apply H1].
  - intros id Hid. unfold room_members. simpl.
    rewrite members_leave_other; [apply H2, Hid |].
    intros ->. contradiction.
  - intros id Hid. unfold room_members. simpl.
    apply members_after_leave. split; [apply H3, Hid |].
    intros [Heq Hsock]. apply Hsid. rewrite <- Heq, Hsock. exact Hx.
Qed.

Lemma rooms_private_step w open f :
  frame_apart ids f ->
  rooms_private ids w open ->
  rooms_private ids (fst (handle w (f_sock f) (f_event f) (f_now f)))
    (open_after open f).
Proof.
  intros [Hx Hjoin] (H1 & H2 & H3).
  destruct f as [sock ev now]. unfold open_after. simpl in *.
  destruct ev as [sid|operation|data| | |]; simpl.
  - specialize (Hjoin sid eq_refl).
    unfold join_session, join_session_enter, join_session_resume. simpl.
    split; [| split]; simpl.
    + intros id sid0. rewrite lookup_insert.
      destruct (decide (sock_id sock = id)); [intros [= <-]; exact Hjoin |].
      apply H1.
    + intros id Hid. unfold room_members. simpl.
      rewrite members_join_other; [apply H2, Hid |].
      intros ->. contradiction.
    + intros id Hid. unfold room_members. simpl.
      apply members_after_join. right. apply H3, Hid.
  - split; [| split].
    + intros id sid. rewrite text_operation_keeps_binding. apply H1.
    + intros id Hid. unfold room_members.
      rewrite text_operation_keeps_rooms. apply H2, Hid.
    + intros id Hid. unfold room_members.
      rewrite text_operation_keeps_rooms. apply H3, Hid.
  - unfold cursor_update.
    destruct (bound_session w sock) as [sid|]; [| repeat split; assumption].
    destruct (activeSessions w !! sid) as [s|]; [| repeat split; assumption].
    simpl.
    destruct (jsmap_get (userId sock) (participants s));
      repeat split; assumption.
  - apply rooms_private_leave; [exact Hx |]. repeat split; assumption.
  - unfold disconnect. apply rooms_private_leave; [exact Hx |].
    split; [| split].
    + exact H1.
    + intros id Hid x Hin. apply members_after_leave_all in Hin as [Hin _].
      exact (H2 id Hid x Hin).
    + intros id Hid. apply elem_of_difference in Hid as [Hid Hne].
      apply members_after_leave_all. split; [apply H3, Hid |].
      intros ->. apply Hne. now apply elem_of_singleton.
  - unfold on_connection. split; [| split]; simpl.
    + exact H1.
    + intros id Hid x Hin. unfold room_members in Hin. simpl in Hin.
      apply members_after_join in Hin as [[-> ->] | Hin].
      * now apply elem_of_singleton.
      * exact (H2 id Hid x Hin).
    + intros id Hid. unfold room_members. simpl.
      apply members_after_join.
      apply elem_of_union in Hid as [Hid | Hid].
      * apply elem_of_singleton in Hid as ->. left. split; reflexivity.
      * right. apply H3, Hid.
Qed.

Lemma rooms_private_run frames : forall w open,
  Forall (frame_apart ids) frames ->
  rooms_private ids w open ->
  rooms_private ids (world_after w frames) (fold_left open_after frames open).
Proof.
  induction frames as [|f frames IH]; intros w open Hall Hinv; [exact Hinv |].
  inversion Hall as [|? ? Hf Hrest]; subst.
  rewrite world_after_cons. simpl. apply IH; [exact Hrest |].
  apply rooms_private_step; assumption.
Qed.

End OwnRooms.

Lemma names_apart_frames (frames : list Frame) :
  names_apart frames = true ->
  Forall (frame_apart (socket_ids frames)) frames.
Proof.
  unfold names_apart. rewrite forallb_forall. intros H.
  apply Forall_forall. intros f Hf. split.
  - unfold socket_ids. apply list_elem_of_fmap. exists f. split; [reflexivity | exact Hf].
  - intros sid Hev. apply list_elem_of_In in Hf. specialize (H f Hf).
    rewrite Hev in H. apply negb_true_iff, bool_decide_eq_false in H. exact H.
Qed.

Lemma is_connected_open (id : string) (frames : list Frame) :
  forall (b : bool) (open : gset string),
    (b = true <-> id ∈ open) ->
    fold_left
      (λ open0 f,
         if bool_decide (sock_id (f_sock f) = id)
         then match f_event f with
              | Connect => true
              | Disconnect => false
              | _ => open0
              end
         else open0) frames b = true
    <-> id ∈ fold_left open_after frames open.
Proof.
  induction frames as [|f frames IH]; intros b open Hb; [exact Hb |].
  simpl. apply IH. unfold open_after.
  destruct (bool_decide (sock_id (f_sock f) = id)) eqn:E.
  - apply bool_decide_eq_true in E.
    destruct (f_event f); try exact Hb.
    + rewrite elem_of_difference, elem_of_singleton. split; [discriminate |].
      intros [_ Hne]. symmetry in E. contradiction.
    + rewrite elem_of_union, elem_of_singleton. split; [| reflexivity].
      intros _. left. symmetry. exact E.
  - apply bool_decide_eq_false in E.
    destruct (f_event f); try exact Hb.
    + rewrite elem_of_difference, elem_of_singleton. rewrite Hb.
      split; [intros H; split; [exact H | congruence] | tauto].
    + rewrite elem_of_union, elem_of_singleton. rewrite Hb.
      split; [tauto | intros [H | H]; [congruence | exact H]].
Qed.

Lemma is_connected_among (id : string) (frames : list Frame) :
  is_connected frames id = true -> id ∈ socket_ids frames.
Proof.
  unfold is_connected, socket_ids.
  assert (H : forall b,
            fold_left
              (λ open0 f,
                 if bool_decide (sock_id (f_sock f) = id)
                 then match f_event f with
                      | Connect => true
                      | Disconnect => false
                      | _ => open0
                      end
                 else open0) frames b = true ->
            b = true \/ id ∈ map (λ f, sock_id (f_sock f)) frames).
  { induction frames as [|f frames IH]; intros b Hb; [left; exact Hb |].
    simpl in *. destruct (IH _ Hb) as [Hf | Hin].
    - destruct (bool_decide (sock_id (f_sock f) = id)) eqn:E.
      + apply bool_decide_eq_true in E. right. rewrite <- E. left.
      + left. exact Hf.
    - right. right. exact Hin. }
  intros Hc. destruct (H false Hc) as [Hf | Hin]; [discriminate | exact Hin].
Qed.

(** As long as no session is named by a socket id, the room named by the
    socket id of an open connection holds that connection and no other. *)
Lemma own_room_of_open_connection (frames : list Frame) (id : string) :
  names_apart frames = true ->
  is_connected frames id = true ->
  room_members (world_after initial_world frames) id = {[ id ]}.
Proof.
  intros Hnames Hopen.
  destruct (rooms_private_run (socket_ids frames) frames initial_world ∅
              (names_apart_frames frames Hnames)) as (_ & H2 & H3).
  { split; [| split].
    - intros i sid H. simpl in H. rewrite lookup_empty in H. discriminate.
    - intros i _ x Hx. unfold room_members in Hx. simpl in Hx.
      rewrite lookup_empty in Hx. simpl in Hx.
      apply not_elem_of_empty in Hx. contradiction.
    - intros i Hi. apply not_elem_of_empty in Hi. contradiction. }
  apply set_eq. intros x. rewrite elem_of_singleton. split.
  - intros Hx. apply (H2 id (is_connected_among id frames Hopen)) in Hx.
    now apply elem_of_singleton in Hx.
  - intros ->. apply H3.
    apply (is_connected_open id frames false ∅); [| exact Hopen].
    split; [discriminate |].
    intros Hi. apply not_elem_of_empty in Hi. contradiction.
Qed.

(** ** Errors of the text-operation handler *)




(** ** Who receives the broadcast events *)




(** ** Where deliveries go *)

(** X7. Whatever the event (join, edit, cursor move, leave, disconnect),
    a handler sends at most two messages.  As long as the sending
    connection is in the room named by its socket id, a message on the
    to-sender channel goes to the members of that room as they were before
    the event, and one on the to-others channel only to connections that
    were in the room of the session the event is about, never to the
    sending connection.  After a run in which no join-session names a
    session by a socket id of the run and the sender is connected, the
    sender receives the to-sender messages and no other, and nobody else
    receives a to-sender message. *)
Theorem deliveries_stay_in_the_room (w : World) (sock : Socket)
    (ev : ClientEvent) (now : Z) :
  (length (snd (handle w sock ev now)) <= 2)%nat
  /\ (sock_id sock ∈ room_members w (sock_id sock) ->
      forall d, d ∈ snd (handle w sock ev now) ->
        match channel d with
        | ToSender => recipients d = room_members w (sock_id sock)
        | ToOthers =>
            exists room, target_session w sock ev = Some room
              /\ recipients d ⊆ room_members w room ∖ {[ sock_id sock ]}
        end)
  /\ (forall frames,
      w = world_after initial_world frames ->
      names_apart frames = true ->
      is_connected frames (sock_id sock) = true ->
      forall d, d ∈ snd (handle w sock ev now) ->
        (sock_id sock ∈ recipients d <-> channel d = ToSender)
        /\ (channel d = ToSender -> recipients d = {[ sock_id sock ]})).
Proof.
  assert (Hlen : (length (snd (handle w sock ev now)) <= 2)%nat).
  { destruct ev as [sid0|operation|data| | |]; simpl.
    - unfold join_session, join_session_enter, join_session_resume. simpl. lia.
    - unfold text_operation. open_handler; simpl; lia.
    - unfold cursor_update.
      destruct (bound_session w sock) as [sid|]; [| simpl; lia].
      destruct (activeSessions w !! sid); simpl; lia.
    - unfold handleLeaveSession.
      destruct (bound_session w sock) as [sid|]; [| simpl; lia].
      destruct (truthy (userId sock)); [| simpl; lia].
      destruct (activeSessions w !! sid); simpl; lia.
    - unfold disconnect, handleLeaveSession.
      destruct (bound_session (socket_leave_all w sock) sock) as [sid|];
        [| simpl; lia].
      destruct (truthy (userId sock)); [| simpl; lia].
      destruct (activeSessions (socket_leave_all w sock) !! sid); simpl; lia.
    - simpl. lia. }
  assert (Hlocal :
    sock_id sock ∈ room_members w (sock_id sock) ->
    forall d, d ∈ snd (handle w sock ev now) ->
      match channel d with
      | ToSender => recipients d = room_members w (sock_id sock)
      | ToOthers =>
          exists room, target_session w sock ev = Some room
            /\ recipients d ⊆ room_members w room ∖ {[ sock_id sock ]}
      end).
  { intros Hown.
    assert (Hleave : forall w0,
      bound_session w0 sock = bound_session w sock ->
      (forall room id, id ∈ room_members w0 room -> id ∈ room_members w room) ->
      forall d, d ∈ snd (handleLeaveSession w0 sock) ->
        match channel d with
        | ToSender => recipients d = room_members w (sock_id sock)
        | ToOthers =>
            exists room, bound_session w sock = Some room
              /\ recipients d ⊆ room_members w room ∖ {[ sock_id sock ]}
        end).
    { intros w0 Hb Hsub. unfold handleLeaveSession. rewrite Hb.
      destruct (bound_session w sock) as [sid|];
        [| intros d Hd; apply elem_of_nil in Hd; contradiction].
      destruct (truthy (userId sock));
        [| intros d Hd; apply elem_of_nil in Hd; contradiction].
      destruct (activeSessions w0 !! sid);
        [| intros d Hd; apply elem_of_nil in Hd; contradiction].
      simpl. intros d Hd. apply list_elem_of_singleton in Hd as ->. simpl.
      exists sid. split; [reflexivity |].
      intros id. unfold room_members at 1 2. simpl.
      rewrite elem_of_difference, members_after_leave, elem_of_difference.
      rewrite elem_of_singleton.
      intros [[Hin Hne] _]. split; [apply Hsub, Hin | tauto]. }
    destruct ev as [sid0|operation|data| | |]; simpl.
    - unfold join_session, join_session_enter, join_session_resume. simpl.
      intros d Hd.
      apply elem_of_cons in Hd as [-> | Hd];
        [| apply list_elem_of_singleton in Hd as ->]; simpl.
      + apply set_eq. intros id. unfold room_members at 1. simpl.
        rewrite members_after_join.
        split; [intros [[_ ->] | H]; [exact Hown | exact H] | tauto].
      + exists sid0. split; [reflexivity |].
        intros id. unfold room_members at 1 2. simpl.
        rewrite elem_of_difference, !members_after_join, elem_of_difference.
        rewrite elem_of_singleton.
        intros [[[_ ->] | Hin] Hnot].
        * exfalso. apply Hnot. right. exact Hown.
        * split; [exact Hin |]. intros ->. apply Hnot. right. exact Hown.
    - unfold text_operation. open_handler; simpl; intros d Hd.
      + apply elem_of_cons in Hd as [-> | Hd];
          [| apply list_elem_of_singleton in Hd as ->]; simpl.
        * eexists. split; [reflexivity |].
          intros id. rewrite !room_members_with_sessions.
          rewrite !elem_of_difference, elem_of_singleton.
          intros [Hin Hnot]. split; [exact Hin |].
          intros ->. apply Hnot, Hown.
        * reflexivity.
      + apply list_elem_of_singleton in Hd as ->. reflexivity.
      + apply list_elem_of_singleton in Hd as ->. reflexivity.
    - unfold cursor_update.
      destruct (bound_session w sock) as [sid|] eqn:Hb;
        [| intros d Hd; apply elem_of_nil in Hd; contradiction].
      destruct (activeSessions w !! sid) as [s|] eqn:Hs;
        [| intros d Hd; apply elem_of_nil in Hd; contradiction].
      simpl. intros d Hd.
      apply list_elem_of_singleton in Hd as ->. simpl.
      exists sid. split; [reflexivity |].
      assert (Hsame : forall room,
        room_members
          match jsmap_get (userId sock) (participants s) with
          | Some participant =>
              with_sessions w
                (<[sid := with_participants s
                     (jsmap_set (userId sock)
                        {| p_userId := p_userId participant;
                           p_username := p_username participant;
                           socketId := socketId participant;
                           joinedAt := joinedAt participant;
                           cursor := Some {| line := cd_line data;
                                             column := cd_column data |};
                           selection := cd_selection data |}
                        (participants s))]> (activeSessions w))
          | None => w
          end room = room_members w room).
      { intros room.
        destruct (jsmap_get (userId sock) (participants s)); reflexivity. }
      intros id. rewrite !Hsame.
      rewrite !elem_of_difference, elem_of_singleton.
      intros [Hin Hnot]. split; [exact Hin |].
      intros ->. apply Hnot, Hown.
    - apply (Hleave w); [reflexivity | tauto].
    - unfold disconnect. apply (Hleave (socket_leave_all w sock)).
      + reflexivity.
      + intros room id Hin. apply members_after_leave_all in Hin. tauto.
    - intros d Hd. apply elem_of_nil in Hd. contradiction. }
  split; [exact Hlen |]. split; [exact Hlocal |].
  intros frames Hw Hnames Hopen d Hd.
  assert (Hown : room_members w (sock_id sock) = {[ sock_id sock ]}).
  { rewrite Hw. now apply own_room_of_open_connection. }
  assert (Hin : sock_id sock ∈ room_members w (sock_id sock)).
  { rewrite Hown. now apply elem_of_singleton. }
  specialize (Hlocal Hin d Hd).
  destruct (channel d).
  - rewrite Hlocal, Hown. split; [| intros _; reflexivity].
    split; [reflexivity | intros _; now apply elem_of_singleton].
  - destruct Hlocal as (room & _ & Hsub). split; [| discriminate].
    split; [| discriminate].
    intros Hx. apply Hsub in Hx.
    rewrite elem_of_difference, elem_of_singleton in Hx. tauto.
Qed.

Lemma deliveries_stay_in_the_room_witness :
  recipients
    (socket_emit
       (fst (text_operation Scenario.two_joined Scenario.alice
               Scenario.insert_x 30))
       Scenario.alice (OperationAcknowledged 30 2))
  = {[ sock_id Scenario.alice ]}.
Proof.
  destruct (deliveries_stay_in_the_room Scenario.two_joined Scenario.alice
              (TextOperationEvent Scenario.insert_x) 30) as (_ & _ & H).
  destruct (H OwnRoom.plain_frames) with
    (d := socket_emit
            (fst (text_operation Scenario.two_joined Scenario.alice
                    Scenario.insert_x 30))
            Scenario.alice (OperationAcknowledged 30 2)) as [_ Hto].
  - vm_compute. reflexivity.
  - vm_compute. reflexivity.
  - vm_compute. reflexivity.
  - vm_compute. right. left.
  - apply Hto. reflexivity.
Defined.
